(** * Socket.io comment-block repair and Ably migration scripts

    A shallow embedding of the four line-oriented rewriting scripts of
    the backend ([fix_all_socket_orphans.py], [fix_socket_comments.py],
    [migrate_to_ably.py], [migrate_todos.py]) together with the Python
    string and regular-expression primitives they are written with.

    Conventions.
    - A Python [str] is a [list ascii]; every character is read as the
      code point of the same number (code points below 256).
    - A file is its text; a function that may rewrite its file returns
      [Some new_text] when it writes and [None] when it does not.
    - A [while i < len(lines)] loop over a list that is mutated in the
      loop body is a [Fixpoint] on a step budget that carries the list
      and the index; the budget given by the caller is shown to be
      enough.  A loop that goes forward line by line and touches only
      the line it is on is a [Fixpoint] on the remaining lines
      [lines[j:]]: it carries [j] where the source uses it, and gives
      back the new [lines[j:]] where the source assigns [lines[j]]. *)

From Stdlib Require Import ZArith Lia Ascii String List Bool.
From stdpp Require Import base list.

Local Open Scope Z_scope.
Local Open Scope nat_scope.

(** ** Python strings *)

Module PyStr.

Definition str := list ascii.

(** String literals. *)
Definition lit (s : string) : str := list_ascii_of_string s.
Arguments lit s%_string.

(** [c.isspace()] for a code point below 256: TAB..CR, FS..US, space,
    NEL and NBSP. *)
Definition isspace (c : ascii) : bool :=
  let n := nat_of_ascii c in
  ((9 <=? n) && (n <=? 13)) || ((28 <=? n) && (n <=? 32))
  || (n =? 133) || (n =? 160).

(** [s.lstrip()] *)
Fixpoint lstrip (s : str) : str :=
  match s with
  | c :: s' => if isspace c then lstrip s' else s
  | [] => []
  end.

(** [s.rstrip()] *)
Definition rstrip (s : str) : str := rev (lstrip (rev s)).

(** [s.strip()] *)
Definition strip (s : str) : str := rstrip (lstrip s).

(** [s.startswith(p)] *)
Fixpoint startswith (s p : str) {struct p} : bool :=
  match p, s with
  | [], _ => true
  | _ :: _, [] => false
  | a :: p', b :: s' => Ascii.eqb a b && startswith s' p'
  end.

(** [s.endswith(p)] *)
Definition endswith (s p : str) : bool := startswith (rev s) (rev p).

(** [sub in s] *)
Fixpoint str_in (sub s : str) : bool :=
  startswith s sub ||
  match s with
  | [] => false
  | _ :: s' => str_in sub s'
  end.

(** [s.count(c)] for a one-character [c]. *)
Fixpoint count (s : str) (c : ascii) : Z :=
  match s with
  | [] => 0%Z
  | a :: s' => ((if Ascii.eqb a c then 1 else 0) + count s' c)%Z
  end.
Arguments count s c%_char.

(** [len(s) - len(s.lstrip())], the indentation width of a line. *)
Definition indent_of (s : str) : nat := length s - length (lstrip s).

(** [' ' * n] *)
Definition spaces (n : nat) : str := repeat " "%char n.

Definition nl : ascii := "010"%char.

(** [s.split('\n')]: never empty, the pieces hold no newline. *)
Fixpoint split_nl (s : str) : list str :=
  match s with
  | [] => [[]]
  | c :: s' =>
      if Ascii.eqb c nl then [] :: split_nl s'
      else match split_nl s' with
           | l :: ls => (c :: l) :: ls
           | [] => [[c]]
           end
  end.

(** ['\n'.join(ls)] *)
Fixpoint join_nl (ls : list str) : str :=
  match ls with
  | [] => []
  | l :: ls' =>
      match ls' with
      | [] => l
      | _ :: _ => l ++ nl :: join_nl ls'
      end
  end.

(** [f.readlines()]: every line keeps its newline; a last line without
    one is kept as it is. *)
Fixpoint readlines (s : str) : list str :=
  match s with
  | [] => []
  | c :: s' =>
      if Ascii.eqb c nl then [c] :: readlines s'
      else match readlines s' with
           | l :: ls =>
               match s' with
               | [] => [[c]]
               | _ :: _ => (c :: l) :: ls
               end
           | [] => [[c]]
           end
  end.

(** [f.writelines(ls)] *)
Definition writelines (ls : list str) : str := concat ls.

(** Python truthiness of a string. *)
Definition nonempty (s : str) : bool :=
  match s with [] => false | _ :: _ => true end.

(** [a == b] *)
Fixpoint eqb (a b : str) : bool :=
  match a, b with
  | [], [] => true
  | x :: a', y :: b' => Ascii.eqb x y && eqb a' b'
  | _, _ => false
  end.

(** [l.insert(n, x)] for [n >= 0]: past the end it appends. *)
Definition list_insert_at {A} (n : nat) (x : A) (l : list A) : list A :=
  take n l ++ x :: drop n l.

End PyStr.
Import PyStr.

(** ** Regular expressions

    The patterns of the scripts use literal characters, [.], [\s],
    character classes, [*], [+] and [*?] on a single character, capture
    groups and [$].  A pattern is the list of its nodes, groups being
    marks as in the compiled form Python's engine runs: mark [2g-2]
    opens group [g] and mark [2g-1] closes it.  [exec] is the
    backtracking matcher; [search] tries every start position from the
    left, as [re.search] does. *)

Module Re.

Inductive cset : Type :=
| CLit (c : ascii)             (* a literal character, escaped or not *)
| CDot                         (* [.]: anything but a newline *)
| CSpace                       (* [\s] *)
| CIn (cs : list ascii)        (* a class [[...]] *)
| CNotIn (cs : list ascii).    (* a negated class [[^...]] *)

Inductive node : Type :=
| One (c : cset)
| Rep (greedy : bool) (lo : nat) (c : cset)   (* [c*], [c+], [c*?] *)
| Mark (n : nat)
| AtEnd.                                      (* [$] *)

Definition pattern := list node.
Definition marks := list (nat * nat).

Definition mem (a : ascii) (cs : list ascii) : bool :=
  existsb (Ascii.eqb a) cs.

Definition cset_match (c : cset) (a : ascii) : bool :=
  match c with
  | CLit b => Ascii.eqb a b
  | CDot => negb (Ascii.eqb a nl)
  | CSpace => isspace a
  | CIn cs => mem a cs
  | CNotIn cs => negb (mem a cs)
  end.

(** [$] matches at the end and before a final newline. *)
Definition at_end (s : str) : bool :=
  match s with
  | [] => true
  | [c] => Ascii.eqb c nl
  | _ => false
  end.

Section Repeat.
Variable c : cset.
Variable k : str -> nat -> option marks.

(** Greedy: take as many as possible, give back one at a time. *)
Fixpoint rep_greedy (lo : nat) (s : str) (pos : nat) : option marks :=
  let stop := if Nat.eqb lo 0 then k s pos else None in
  match s with
  | a :: s' =>
      if cset_match c a then
        match rep_greedy (pred lo) s' (S pos) with
        | Some r => Some r
        | None => stop
        end
      else stop
  | [] => stop
  end.

(** Lazy: take as few as possible, one more at a time. *)
Fixpoint rep_lazy (lo : nat) (s : str) (pos : nat) : option marks :=
  match (if Nat.eqb lo 0 then k s pos else None) with
  | Some r => Some r
  | None =>
      match s with
      | a :: s' =>
          if cset_match c a then rep_lazy (pred lo) s' (S pos) else None
      | [] => None
      end
  end.
End Repeat.

Fixpoint exec (p : pattern) (m : marks) (s : str) (pos : nat) : option marks :=
  match p with
  | [] => Some m
  | One c :: p' =>
      match s with
      | a :: s' => if cset_match c a then exec p' m s' (S pos) else None
      | [] => None
      end
  | Rep true lo c :: p' => rep_greedy c (exec p' m) lo s pos
  | Rep false lo c :: p' => rep_lazy c (exec p' m) lo s pos
  | Mark n :: p' => exec p' ((n, pos) :: m) s pos
  | AtEnd :: p' => if at_end s then exec p' m s pos else None
  end.

Fixpoint search_from (p : pattern) (s : str) (pos : nat) : option marks :=
  match exec p [] s pos with
  | Some m => Some m
  | None =>
      match s with
      | [] => None
      | _ :: s' => search_from p s' (S pos)
      end
  end.

(** [re.search(p, text)]: the marks of the leftmost match. *)
Definition search (p : pattern) (text : str) : option marks :=
  search_from p text 0.

Fixpoint mark_pos (n : nat) (m : marks) : nat :=
  match m with
  | [] => 0
  | (n', pos) :: m' => if Nat.eqb n n' then pos else mark_pos n m'
  end.

(** [match.group(g)] for [g >= 1]. *)
Definition group (g : nat) (text : str) (m : marks) : str :=
  let b := mark_pos (2 * g - 2) m in
  let e := mark_pos (2 * g - 1) m in
  take (e - b) (drop b text).

(** A run of literal characters. *)
Definition lits (s : string) : pattern :=
  map (fun a => One (CLit a)) (list_ascii_of_string s).
Arguments lits s%_string.

End Re.

(** ** fix_all_socket_orphans.py *)

Module FixAllSocketOrphans.

(** [r'//\s+(io\.to\(.*\)\.emit\(.*,\s*\{)\s*$'] *)
Definition marker_re : Re.pattern :=
  Re.lits "//" ++ [Re.Rep true 1 Re.CSpace; Re.Mark 0] ++
  Re.lits "io.to(" ++ [Re.Rep true 0 Re.CDot] ++
  Re.lits ").emit(" ++ [Re.Rep true 0 Re.CDot] ++ Re.lits "," ++
  [Re.Rep true 0 Re.CSpace] ++ Re.lits "{" ++
  [Re.Mark 1; Re.Rep true 0 Re.CSpace; Re.AtEnd].

(** [re.search(marker_re, line)] as a condition. *)
Definition is_marker (line : str) : bool :=
  match Re.search marker_re line with Some _ => true | None => false end.

(** The variables of the inner loop when it is left. *)
Record scan_state : Type := {
  sc_j : nat;
  sc_brace_count : Z;
  sc_properties_to_comment : list nat
}.

(** The inner [while j < len(lines) and brace_count > 0] loop; [rest] is
    [lines[j:]]. *)
Fixpoint scan (rest : list str) (j : nat) (brace_count : Z)
    (properties_to_comment : list nat) : scan_state :=
  match rest with
  | [] => Build_scan_state j brace_count properties_to_comment
  | next_line :: rest' =>
      if negb (0 <? brace_count)%Z
      then Build_scan_state j brace_count properties_to_comment
      else
        let stripped := strip next_line in
        let brace_count :=
          if str_in (lit "{") stripped
          then (brace_count + count stripped "{")%Z else brace_count in
        let brace_count :=
          if str_in (lit "}") stripped
          then (brace_count - count stripped "}")%Z else brace_count in
        let properties_to_comment :=
          if negb (startswith stripped (lit "//")) && nonempty stripped
             && (0 <? brace_count)%Z
          then properties_to_comment ++ [j] else properties_to_comment in
        if (brace_count =? 0)%Z then
          let properties_to_comment :=
            if negb (startswith stripped (lit "//"))
               && str_in (lit "}") stripped
            then properties_to_comment ++ [j] else properties_to_comment in
          Build_scan_state j brace_count properties_to_comment
        else scan rest' (S j) brace_count properties_to_comment
  end.

(** [' ' * indent + '// ' + line.lstrip()] with
    [indent = len(line) - len(line.lstrip())]. *)
Definition comment_line (line : str) : str :=
  spaces (indent_of line) ++ lit "// " ++ lstrip line.

(** [lines[line_num] = ' ' * indent + '// ' + lines[line_num].lstrip()];
    the loop only passes indices below [len(lines)]. *)
Definition comment_at (lines : list str) (line_num : nat) : list str :=
  match lines !! line_num with
  | Some l => <[line_num := comment_line l]> lines
  | None => lines
  end.

(** The outer [while i < len(lines)] loop.  [modified] is set in the
    [for line_num in properties_to_comment] loop, that is when the list
    is not empty. *)
Fixpoint fix_loop (fuel : nat) (lines : list str) (i : nat) (modified : bool)
    : list str * bool :=
  match fuel with
  | O => (lines, modified)
  | S fuel' =>
      match lines !! i with
      | None => (lines, modified)
      | Some line =>
          if is_marker line then
            let st := scan (drop (S i) lines) (S i) 1 [] in
            let props := sc_properties_to_comment st in
            let lines' := foldl comment_at lines props in
            fix_loop fuel' lines' (S i)
              (modified || negb (Nat.eqb (length props) 0))
          else fix_loop fuel' lines (S i) modified
      end
  end.

(** [fix_file]: the text written back, or [None] when nothing changed. *)
Definition fix_file (content : str) : option str :=
  let lines := split_nl content in
  let '(lines', modified) := fix_loop (length lines) lines 0 false in
  if modified then Some (join_nl lines') else None.

End FixAllSocketOrphans.


(** ** migrate_to_ably.py *)

Module MigrateToAbly.

(** The three quote characters ['], double quote and backtick, written
    [Q] in the patterns below. *)
Definition quotes : list ascii := ["'"; "034"; "`"]%char.

(** The first pattern, [io\.to\([Q]([^Q\)]+)[Q\)]\.emit\([Q]([^Q]+)[Q]]:
    the class that closes the channel holds the right parenthesis, and
    [\.emit] follows it at once. *)
Definition call_re : Re.pattern :=
  Re.lits "io.to(" ++
  [Re.One (Re.CIn quotes);
   Re.Mark 0; Re.Rep true 1 (Re.CNotIn (quotes ++ [")"%char])); Re.Mark 1;
   Re.One (Re.CIn (quotes ++ [")"%char]))] ++
  Re.lits ".emit(" ++
  [Re.One (Re.CIn quotes);
   Re.Mark 2; Re.Rep true 1 (Re.CNotIn quotes); Re.Mark 3;
   Re.One (Re.CIn quotes)].

(** The template-literal pattern,
    [io\.to\(`([^`]+)`\)\.emit\([Q]([^Q]+)[Q]]. *)
Definition template_re : Re.pattern :=
  Re.lits "io.to(`" ++
  [Re.Mark 0; Re.Rep true 1 (Re.CNotIn ["`"%char]); Re.Mark 1] ++
  Re.lits "`).emit(" ++
  [Re.One (Re.CIn quotes);
   Re.Mark 2; Re.Rep true 1 (Re.CNotIn quotes); Re.Mark 3;
   Re.One (Re.CIn quotes)].

(** The two [re.search] calls on the stripped line: the first pattern,
    then the template-literal pattern; the result is
    [(match.group(1), match.group(2))]. *)
Definition match_call (stripped : str) : option (str * str) :=
  let match_ :=
    match Re.search call_re stripped with
    | Some m => Some m
    | None => Re.search template_re stripped
    end in
  match match_ with
  | Some m => Some (Re.group 1 stripped m, Re.group 2 stripped m)
  | None => None
  end.

Definition import_line (filepath : str) : str :=
  if startswith filepath (lit "utils/")
  then lit "const { publishToChannel } = require('./ably-adapter');"
  else lit "const { publishToChannel } = require('../utils/ably-adapter');".

(** The first [for i, line in enumerate(lines)] loop of
    [add_ably_import]; [rest] is [lines[i:]]. *)
Fixpoint last_require (rest : list str) (i : nat) (last_require_index : Z) : Z :=
  match rest with
  | [] => last_require_index
  | line :: rest' =>
      last_require rest' (S i)
        (if str_in (lit "require(") line
            && negb (startswith (strip line) (lit "//"))
         then Z.of_nat i else last_require_index)
  end.

(** The second loop, which stops at the first line that is neither
    blank nor a comment. *)
Fixpoint first_code (rest : list str) (i : nat) (last_require_index : Z) : Z :=
  match rest with
  | [] => last_require_index
  | line :: rest' =>
      if negb (startswith (strip line) (lit "//"))
         && negb (startswith (strip line) (lit "/*"))
         && negb (startswith (strip line) (lit "*"))
         && nonempty (strip line)
      then (Z.of_nat i - 1)%Z
      else first_code rest' (S i) last_require_index
  end.

(** [add_ably_import(filepath)] on a file of text [content]: the text
    written, or [None] for the early [return False]. *)
Definition add_ably_import (filepath content : str) : option str :=
  if str_in (lit "ably-adapter") content || str_in (lit "ably-publish") content
  then None
  else
    let lines := split_nl content in
    let last_require_index := last_require lines 0 (-1)%Z in
    let last_require_index :=
      if (last_require_index =? -1)%Z
      then first_code lines 0 last_require_index
      else last_require_index in
    let lines :=
      list_insert_at (Z.to_nat (last_require_index + 1)) (import_line filepath)
        lines in
    Some (join_nl lines).

(** The variables of the property loop when it is left. *)
Record prop_state : Type := {
  ps_k : nat;
  ps_brace_count : Z;
  ps_properties : list (str * str)
}.

(** The [while k < len(lines) and brace_count > 0] loop; [rest] is
    [lines[k:]]. *)
Fixpoint scan_properties (rest : list str) (k : nat) (brace_count : Z)
    (properties : list (str * str)) : prop_state :=
  match rest with
  | [] => Build_prop_state k brace_count properties
  | prop_line :: rest' =>
      if negb (0 <? brace_count)%Z
      then Build_prop_state k brace_count properties
      else
        let prop_stripped := strip prop_line in
        if negb (startswith prop_stripped (lit "//"))
        then scan_properties rest' (S k) brace_count properties
        else
          let uncommented := strip (drop 2 prop_stripped) in
          let brace_count :=
            if str_in (lit "{") uncommented
            then (brace_count + count uncommented "{")%Z else brace_count in
          let brace_count :=
            if str_in (lit "}") uncommented
            then (brace_count - count uncommented "}")%Z else brace_count in
          let properties :=
            if nonempty uncommented && (0 <? brace_count)%Z
               && negb (eqb uncommented (lit "}"))
               && negb (eqb uncommented (lit "});"))
            then properties ++ [(spaces (indent_of prop_line), uncommented)]
            else properties in
          if (brace_count =? 0)%Z
          then Build_prop_state k brace_count properties
          else scan_properties rest' (S k) brace_count properties
  end.

(** The [replacement] list built from the indentation of [lines[j]]. *)
Definition build_replacement (indent_str channel event : str)
    (properties : list (str * str)) : list str :=
  [indent_str ++ lit "// Publish to Ably real-time channel";
   indent_str ++ lit "try {";
   indent_str ++ lit "  await publishToChannel('" ++ channel ++ lit "', '"
     ++ event ++ lit "', {"]
  ++ map (fun '(prop_indent, prop) => indent_str ++ lit "    " ++ prop)
       properties
  ++ [indent_str ++ lit "  });";
      indent_str ++ lit "} catch (ablyError) {";
      indent_str
        ++ lit "  console.error('Failed to publish to Ably:', ablyError.message);";
      indent_str ++ lit "}"].

(** What the [while j < len(lines)] loop finds: the index of the
    commented call line with the channel and event matched on it. *)
Record found_call : Type := {
  fc_j : nat;
  fc_line : str;
  fc_channel : str;
  fc_event : str
}.

(** The [while j < len(lines)] loop up to the line on which a pattern
    matches; [rest] is [lines[j:]].  [None] when the loop ends without a
    match, at the end of the file or past the 50-line window. *)
Fixpoint find_call (rest : list str) (i j : nat) : option found_call :=
  match rest with
  | [] => None
  | next_line :: rest' =>
      let stripped := strip next_line in
      let match_ :=
        if startswith stripped (lit "//") && str_in (lit "io.to(") stripped
           && str_in (lit ".emit(") stripped
        then match_call stripped else None in
      match match_ with
      | Some (channel, event) => Some (Build_found_call j next_line channel event)
      | None =>
          let j := S j in
          if 50 <? j - i then None else find_call rest' i j
      end
  end.

(** The outer [while i < len(lines)] loop. *)
Fixpoint migrate_loop (fuel : nat) (lines : list str) (i : nat)
    (modified : bool) : list str * bool :=
  match fuel with
  | O => (lines, modified)
  | S fuel' =>
      match lines !! i with
      | None => (lines, modified)
      | Some line =>
          if str_in (lit "// TODO: Replace with Ably") line then
            match find_call (drop (S i) lines) i (S i) with
            | Some fc =>
                let j := fc_j fc in
                let st := scan_properties (drop (S j) lines) (S j) 1 [] in
                let k := ps_k st in
                let indent_str := spaces (indent_of (fc_line fc)) in
                let replacement :=
                  build_replacement indent_str (fc_channel fc) (fc_event fc)
                    (ps_properties st) in
                (* lines[i:k+1] = replacement *)
                let lines := take i lines ++ replacement ++ drop (S k) lines in
                (* i += len(replacement); break; i += 1 *)
                migrate_loop fuel' lines (S (i + length replacement)) true
            | None => migrate_loop fuel' lines (S i) modified
            end
          else migrate_loop fuel' lines (S i) modified
      end
  end.

(** [migrate_socket_to_ably]: the text written, or [None]. *)
Definition migrate_socket_to_ably (content : str) : option str :=
  let lines := split_nl content in
  let '(lines', modified) := migrate_loop (length lines) lines 0 false in
  if modified then Some (join_nl lines') else None.

End MigrateToAbly.

(** ** fix_socket_comments.py *)

Module FixSocketComments.

(** [' ' * indent + '// ' + next_line.lstrip()] *)
Definition comment_line (next_line : str) : str :=
  spaces (indent_of next_line) ++ lit "// " ++ lstrip next_line.

(** The stop condition of the inner loop: an empty line, a comment, or
    the start of a new statement. *)
Definition stops (stripped : str) : bool :=
  negb (nonempty stripped) || startswith stripped (lit "//")
  || startswith stripped (lit "res.") || startswith stripped (lit "await")
  || startswith stripped (lit "const") || startswith stripped (lit "let")
  || startswith stripped (lit "var").

(** The lines the inner loop comments on its way. *)
Definition is_property (stripped : str) : bool :=
  str_in (lit ":") stripped || eqb stripped (lit "}")
  || endswith stripped (lit ",").

(** The inner [while j < len(lines)] loop, which assigns [lines[j]] as
    it goes; [rest] is [lines[j:]] and the result is its new value with
    the new value of [modified]. *)
Fixpoint comment_orphans (rest : list str) (modified : bool)
    : list str * bool :=
  match rest with
  | [] => ([], modified)
  | next_line :: rest' =>
      let stripped := strip next_line in
      if eqb stripped (lit "});")
      then (comment_line next_line :: rest', true)
      else if stops stripped
      then (rest, modified)
      else
        let '(line', modified) :=
          if is_property stripped
          then (comment_line next_line, true)
          else (next_line, modified) in
        let '(rest'', modified) := comment_orphans rest' modified in
        (line' :: rest'', modified)
  end.

(** The outer [while i < len(lines)] loop. *)
Fixpoint fix_loop (fuel : nat) (lines : list str) (i : nat) (modified : bool)
    : list str * bool :=
  match fuel with
  | O => (lines, modified)
  | S fuel' =>
      match lines !! i with
      | None => (lines, modified)
      | Some line =>
          if str_in (lit "//     io.to(") line || str_in (lit "//   io.to(") line
          then
            let '(rest, modified) :=
              comment_orphans (drop (S i) lines) modified in
            fix_loop fuel' (take (S i) lines ++ rest) (S i) modified
          else fix_loop fuel' lines (S i) modified
      end
  end.

(** [fix_file]: the text written back, or [None]. *)
Definition fix_file (content : str) : option str :=
  let lines := readlines content in
  let '(lines', modified) := fix_loop (length lines) lines 0 false in
  if modified then Some (writelines lines') else None.

End FixSocketComments.

(** ** migrate_todos.py *)

Module MigrateTodos.

(** The pattern [io\.to\((.*?)\)\.emit\('([^']+)'], with a lazy
    first group. *)
Definition call_re : Re.pattern :=
  Re.lits "io.to(" ++ [Re.Mark 0; Re.Rep false 0 Re.CDot; Re.Mark 1] ++
  Re.lits ").emit('" ++
  [Re.Mark 2; Re.Rep true 1 (Re.CNotIn ["'"%char]); Re.Mark 3] ++
  Re.lits "'".

(** [extract_channel_and_event]; [None] is the pair [(None, None)]. *)
Fixpoint extract_channel_and_event (lines : list str) : option (str * str) :=
  match lines with
  | [] => None
  | line :: lines' =>
      match Re.search call_re line with
      | Some m => Some (Re.group 1 line m, Re.group 2 line m)
      | None => extract_channel_and_event lines'
      end
  end.

(** The [for line in lines] loop of [extract_payload]. *)
Fixpoint payload_loop (lines : list str) (in_payload : bool)
    (payload_lines : list str) : list str :=
  match lines with
  | [] => payload_lines
  | line :: lines' =>
      if str_in (lit "{") line && negb in_payload
      then payload_loop lines' true payload_lines
      else if str_in (lit "});") line
      then payload_lines
      else if in_payload then
        let clean_line := strip line in
        let clean_line :=
          if startswith clean_line (lit "//")
          then strip (drop 2 clean_line) else clean_line in
        payload_loop lines' in_payload
          (if nonempty clean_line && negb (startswith clean_line (lit "//"))
           then payload_lines ++ [clean_line] else payload_lines)
      else payload_loop lines' in_payload payload_lines
  end.

Definition extract_payload (lines : list str) : list str :=
  payload_loop lines false [].

(** The [while j < len(lines) and (...)] loop that collects the block;
    [rest] is [lines[j:]]. *)
Fixpoint collect_block (rest : list str) (j : nat) (block_lines : list str)
    : list str * nat :=
  match rest with
  | [] => (block_lines, j)
  | l :: rest' =>
      if startswith (strip l) (lit "//") || eqb (strip l) []
      then
        let block_lines := block_lines ++ [l] in
        let j := S j in
        if str_in (lit "});") l then (block_lines, j)
        else collect_block rest' j block_lines
      else (block_lines, j)
  end.

(** The lines of the generated code, each with its newline. *)
Definition replacement_lines (indent_str channel event : str)
    (payload_lines : list str) : list str :=
  [indent_str ++ lit "try {" ++ [nl];
   indent_str ++ lit "  await publishToChannel(" ++ channel ++ lit ", '"
     ++ event ++ lit "', {" ++ [nl]]
  ++ map (fun payload_line => indent_str ++ lit "    " ++ payload_line ++ [nl])
       payload_lines
  ++ [indent_str ++ lit "  });" ++ [nl];
      indent_str ++ lit "} catch (ablyError) {" ++ [nl];
      indent_str ++ lit "  logger.error('Failed to publish " ++ event
        ++ lit " to Ably:', ablyError.message);" ++ [nl];
      indent_str ++ lit "}" ++ [nl]].

(** The string [replacement], built by [+=] from those lines. *)
Definition replacement (indent_str channel event : str)
    (payload_lines : list str) : str :=
  concat (replacement_lines indent_str channel event payload_lines).

(** The [while i < len(lines)] loop of [migrate_file]. *)
Fixpoint migrate_loop (fuel : nat) (lines : list str) (i : nat)
    (new_lines : list str) (replacements : nat) : list str * nat :=
  match fuel with
  | O => (new_lines, replacements)
  | S fuel' =>
      match lines !! i with
      | None => (new_lines, replacements)
      | Some line =>
          let keep := migrate_loop fuel' lines (S i) (new_lines ++ [line])
                        replacements in
          if str_in (lit "TODO: Replace with Ably") line then
            let '(block_lines, j) :=
              collect_block (drop (S i) lines) (S i) [line] in
            let payload_lines := extract_payload block_lines in
            match extract_channel_and_event block_lines with
            | Some (channel, event) =>
                if nonempty channel && nonempty event then
                  let indent_str := spaces (indent_of line) in
                  migrate_loop fuel' lines j
                    (new_lines
                       ++ [replacement indent_str channel event payload_lines])
                    (S replacements)
                else keep
            | None => keep
            end
          else keep
      end
  end.

(** [migrate_file]: the text written (or [None]) and the number of
    replacements returned. *)
Definition migrate_file (content : str) : option str * nat :=
  let lines := readlines content in
  let '(new_lines, replacements) :=
    migrate_loop (length lines) lines 0 [] 0 in
  (if 0 <? replacements then Some (writelines new_lines) else None,
   replacements).

End MigrateTodos.


(** * Sample documents *)

Module Samples.

(** A route with a commented emit call whose properties were left
    uncommented. *)
Definition orphan_doc : str := lit
"router.post('/x', async (req, res) => {
  // io.to(room).emit('update', {
    id: 1,
    name: n
  });
  res.json({ ok: true });
});".

(** Two TODO blocks, the second right after the first. *)
Definition two_blocks_doc : str := lit
"// TODO: Replace with Ably
// io.to(`user:${userId}`).emit('notify', {
//   id: 1,
// });
// TODO: Replace with Ably
// io.to(`room`).emit('update', {
//   n: 2,
// });".

(** A block cut off before its closing brace. *)
Definition truncated_doc : str := lit
"// io.to(room).emit('update', {
  foo: 1,".

(** A TODO block cut off before its closing brace. *)
Definition truncated_todo_doc : str := lit
"// TODO: Replace with Ably
// io.to(`room`).emit('update', {
//   foo: 1,".

(** The marker line and payload lines of the field-fidelity test. *)
Definition field_marker : str := lit "// io.to('room:42').emit('update', {".
Definition field_block : list str :=
  [field_marker; lit "// foo: bar,"; lit "// });"].

(** A TODO block with a template-literal channel. *)
Definition template_doc : str := lit
"  // TODO: Replace with Ably
  // io.to(`user:${userId}`).emit('notify', {
  //   id: 1,
  // });
".

(** A commented call followed by a property, an empty line and the
    rest of the handler. *)
Definition stopped_doc : str := lit
"  //   io.to(room).emit('update', {
    id: 1,

  res.json({ ok: true });
".

(** A file that opens with a block comment and has no require. *)
Definition block_comment_doc : str := lit
"/*
  Legacy goals module
*/
module.exports = {};".

(** A file of comments only. *)
Definition comments_only_doc : str := lit
"// goals
// (empty)".

(** A TODO block with a line that is not a comment inside. *)
Definition stray_doc : str := lit
"// TODO: Replace with Ably
// io.to(`room`).emit('update', {
//   id: 1,
  audit(id);
//   n: 2,
// });
done();".

(** [orphan_doc] after the orphan fixer. *)
Definition orphan_doc_fixed : str := lit
"router.post('/x', async (req, res) => {
  // io.to(room).emit('update', {
    // id: 1,
    // name: n
  // });
  res.json({ ok: true });
});".

(** [two_blocks_doc] after one run of the Ably migration, and after a
    second run. *)
Definition two_blocks_once : str := lit
"// Publish to Ably real-time channel
try {
  await publishToChannel('user:${userId}', 'notify', {
    id: 1,
  });
} catch (ablyError) {
  console.error('Failed to publish to Ably:', ablyError.message);
}
// TODO: Replace with Ably
// io.to(`room`).emit('update', {
//   n: 2,
// });".

Definition two_blocks_twice : str := lit
"// Publish to Ably real-time channel
try {
  await publishToChannel('user:${userId}', 'notify', {
    id: 1,
  });
} catch (ablyError) {
  console.error('Failed to publish to Ably:', ablyError.message);
}
// Publish to Ably real-time channel
try {
  await publishToChannel('room', 'update', {
    n: 2,
  });
} catch (ablyError) {
  console.error('Failed to publish to Ably:', ablyError.message);
}".

(** [truncated_doc] after the orphan fixer. *)
Definition truncated_doc_fixed : str := lit
"// io.to(room).emit('update', {
  // foo: 1,".

(** [truncated_todo_doc] after the Ably migration. *)
Definition truncated_todo_migrated : str := lit
"// Publish to Ably real-time channel
try {
  await publishToChannel('room', 'update', {
    foo: 1,
  });
} catch (ablyError) {
  console.error('Failed to publish to Ably:', ablyError.message);
}".

(** [template_doc] after the Ably migration and after the TODO
    migration. *)
Definition template_ably : str := lit
"  // Publish to Ably real-time channel
  try {
    await publishToChannel('user:${userId}', 'notify', {
      id: 1,
    });
  } catch (ablyError) {
    console.error('Failed to publish to Ably:', ablyError.message);
  }
".

Definition template_todos : str := lit
"  try {
    await publishToChannel(`user:${userId}`, 'notify', {
      id: 1,
    });
  } catch (ablyError) {
    logger.error('Failed to publish notify to Ably:', ablyError.message);
  }
".

(** [stopped_doc] after the first comment fixer. *)
Definition stopped_doc_fixed : str := lit
"  //   io.to(room).emit('update', {
    // id: 1,

  res.json({ ok: true });
".

(** [block_comment_doc] and [comments_only_doc] after
    [add_ably_import]. *)
Definition block_comment_imported : str := lit
"/*
const { publishToChannel } = require('../utils/ably-adapter');
  Legacy goals module
*/
module.exports = {};".

Definition comments_only_imported : str := lit
"const { publishToChannel } = require('../utils/ably-adapter');
// goals
// (empty)".

(** [stray_doc] after the Ably migration. *)
Definition stray_migrated : str := lit
"// Publish to Ably real-time channel
try {
  await publishToChannel('room', 'update', {
    id: 1,
    n: 2,
  });
} catch (ablyError) {
  console.error('Failed to publish to Ably:', ablyError.message);
}
done();".

(** A commented block nested two deep, with one line that is not a
    comment inside. *)
Definition mixed_block : list str :=
  [lit "//   user: {"; lit "  audit(id);"; lit "//     id: 1";
   lit "//   },"; lit "// });"; lit "next();"].

(** A commented property under a closing line that is not a comment. *)
Definition open_close_block : list str :=
  [lit "//   id: 1,"; lit "});"; lit "next();"; lit "more();"].

(** A block nested two deep under its marker. *)
Definition nested_block : list str :=
  [lit "    user: {"; lit "      id: 1"; lit "    },"; lit "  });";
   lit "  next();"].

(** The lines under a marker for a payload nested [n] deep: [n - 1]
    objects opened one inside the other around one property, then the
    line that closes the call. *)
Fixpoint nested_body (n : nat) : list str :=
  match n with
  | O => [lit "x: 1"]
  | S n' => [lit "k: {"] ++ nested_body n' ++ [lit "},"]
  end.

Definition nested (n : nat) : list str :=
  nested_body (n - 1) ++ [lit "});"; lit "next();"].

Definition commented_nested (n : nat) : list str :=
  map (fun l => lit "// " ++ l) (nested n).

(** A file with require statements. *)
Definition requires_doc : str := lit
"// goals
const express = require('express');
const db = require('../db');
// const io = require('socket.io');
const router = express.Router();".

Definition requires_imported : str := lit
"// goals
const express = require('express');
const db = require('../db');
const { publishToChannel } = require('./ably-adapter');
// const io = require('socket.io');
const router = express.Router();".

End Samples.

(** * Notions used in the statements *)

(** ** The orphan fixer *)

Module OrphanNotions.
Import FixAllSocketOrphans.

(** [stripped.startswith('//')] for the line [l]. *)
Definition commented (l : str) : bool := startswith (strip l) (lit "//").

(** The depth after a line: the open braces of the line are added and
    its close braces subtracted. *)
Definition new_depth (bc : Z) (l : str) : Z :=
  (bc + count l "{" - count l "}")%Z.

(** Whether the line read at depth [bc'] (after the update) is put on
    [properties_to_comment]. *)
Definition selected (bc' : Z) (l : str) : bool :=
  if (bc' =? 0)%Z
  then negb (commented l) && (0 <? count l "}")%Z
  else negb (commented l) && nonempty (strip l) && (0 <? bc')%Z.

(** The lines [lines[j:]] after the [for line_num in
    properties_to_comment] loop, computed line by line. *)
Fixpoint rewrite_block (rest : list str) (bc : Z) : list str :=
  match rest with
  | [] => []
  | l :: rest' =>
      if negb (0 <? bc)%Z then rest
      else
        let bc' := new_depth bc l in
        (if selected bc' l then comment_line l else l)
          :: (if (bc' =? 0)%Z then rest' else rewrite_block rest' bc')
  end.

(** [l'] is [l], or a commented line with the braces of [l]. *)
Definition settles (l l' : str) : Prop :=
  l' = l \/
  (commented l' = true /\ count l' "{" = count l "{"
   /\ count l' "}" = count l "}" /\ (In nl l' -> In nl l)).

(** Nothing is selected by the scan that starts after line [i]. *)
Definition quiet (lines : list str) (i : nat) : Prop :=
  forall line, lines !! i = Some line -> is_marker line = true ->
  sc_properties_to_comment (scan (drop (S i) lines) (S i) 1 []) = [].

(** The depth after the lines [ls], starting from [bc]: every line adds
    its open braces and subtracts its close braces. *)
Fixpoint depth (bc : Z) (ls : list str) : Z :=
  match ls with
  | [] => bc
  | l :: ls' => depth (new_depth bc l) ls'
  end.

(** The depth is positive after each of the lines of [ls]. *)
Definition stays_open (bc : Z) (ls : list str) : Prop :=
  forall n, n < length ls -> (0 < depth bc (take (S n) ls))%Z.

(** What the [for] loop does to a line read while the depth stays
    positive. *)
Definition comment_if_code (l : str) : str :=
  if negb (commented l) && nonempty (strip l) then comment_line l else l.

End OrphanNotions.

(** ** The Ably migration *)

Module AblyNotions.
Import MigrateToAbly.
Import OrphanNotions.

(** The text [uncommented] of a commented line. *)
Definition fragment (l : str) : str := strip (drop 2 (strip l)).

(** The depth as the property loop counts it: the lines that are not
    comments are passed over, the braces of the others are counted. *)
Definition comment_depth (bc : Z) (ls : list str) : Z :=
  depth bc (List.filter commented ls).

(** Whether the line read at depth [bc'] (after the update) gives a
    payload fragment. *)
Definition kept (bc' : Z) (l : str) : bool :=
  nonempty (fragment l) && (0 <? bc')%Z
  && negb (eqb (fragment l) (lit "}")) && negb (eqb (fragment l) (lit "});")).

(** The document after the loop body has run for the call [fc] found
    from the marker at [i]: [lines[i:k+1] = replacement]. *)
Definition spliced (lines : list str) (i : nat) (fc : found_call) : list str :=
  let st := scan_properties (drop (S (fc_j fc)) lines) (S (fc_j fc)) 1 [] in
  take i lines
  ++ build_replacement (spaces (indent_of (fc_line fc))) (fc_channel fc)
       (fc_event fc) (ps_properties st)
  ++ drop (S (ps_k st)) lines.

(** A text that begins with a character that is not a space. *)
Definition starts_nonspace (s : str) : Prop :=
  exists c t, s = c :: t /\ isspace c = false.

End AblyNotions.

(** ** The first comment fixer *)

Module CommentNotions.
Import FixSocketComments.

(** The line the inner loop leaves behind when it goes past it. *)
Definition comment_if_property (l : str) : str :=
  if is_property (strip l) then comment_line l else l.

End CommentNotions.

(** ** The import *)

Module ImportNotions.
Import MigrateToAbly.

(** A line the first loop of [add_ably_import] takes for a require
    statement. *)
Definition is_require (line : str) : bool :=
  str_in (lit "require(") line && negb (startswith (strip line) (lit "//")).

(** A line the second loop takes for code: not blank and not starting
    as a comment does. *)
Definition is_code (line : str) : bool :=
  negb (startswith (strip line) (lit "//"))
  && negb (startswith (strip line) (lit "/*"))
  && negb (startswith (strip line) (lit "*"))
  && nonempty (strip line).

(** The guard of [add_ably_import]: the text names the adapter. *)
Definition references_adapter (content : str) : bool :=
  str_in (lit "ably-adapter") content || str_in (lit "ably-publish") content.

End ImportNotions.

(** * The driver of migrate_to_ably.py *)

Module MigrateToAblyMain.
Import MigrateToAbly.

Definition FILES_TO_MIGRATE : list str :=
  [lit "routes/live-shopping.js"; lit "routes/shop.js"; lit "routes/loyalty.js";
   lit "routes/stream-features.js"; lit "routes/polls.js";
   lit "routes/streaming.js"; lit "routes/ticketed-shows.js";
   lit "routes/recording.js"; lit "routes/stream-chat.js";
   lit "routes/questions.js"; lit "routes/goals.js";
   lit "utils/challenge-service.js"; lit "utils/stream-activity-monitor.js";
   lit "utils/loyalty-service.js"; lit "routes/enhanced-subscriptions.js";
   lit "routes/tokens.js"].

(** The files the script can see: the text of every path that exists. *)
Definition files := str -> option str.

(** [open(filepath, 'w').write(content)] *)
Definition write (fs : files) (filepath content : str) : files :=
  fun p => if eqb p filepath then Some content else fs p.

(** [add_ably_import(filepath)] on the files; the result of the call is
    not used by the driver. *)
Definition run_add_ably_import (fs : files) (filepath : str) : files :=
  match fs filepath with
  | Some content =>
      match add_ably_import filepath content with
      | Some new_content => write fs filepath new_content
      | None => fs
      end
  | None => fs
  end.

(** [migrate_socket_to_ably(filepath)] on the files, with the boolean it
    returns. *)
Definition run_migrate_socket_to_ably (fs : files) (filepath : str)
    : files * bool :=
  match fs filepath with
  | Some content =>
      match migrate_socket_to_ably content with
      | Some new_content => (write fs filepath new_content, true)
      | None => (fs, false)
      end
  | None => (fs, false)
  end.

(** The [for filepath in FILES_TO_MIGRATE] loop; [os.path.exists] is
    the file being there.  The lines printed are left out. *)
Fixpoint main_loop (todo : list str) (fs : files) (migrated_files : list str)
    : files * list str :=
  match todo with
  | [] => (fs, migrated_files)
  | filepath :: todo' =>
      match fs filepath with
      | Some _ =>
          let fs := run_add_ably_import fs filepath in
          let '(fs, migrated) := run_migrate_socket_to_ably fs filepath in
          main_loop todo' fs
            (if migrated then migrated_files ++ [filepath] else migrated_files)
      | None => main_loop todo' fs migrated_files
      end
  end.

Definition main (fs : files) : files * list str :=
  main_loop FILES_TO_MIGRATE fs [].

End MigrateToAblyMain.

(** * Notions used in the further statements *)

Module MoreNotions.
Import OrphanNotions AblyNotions.

(** [l'] is [l], or [l] was neither blank nor a comment and [l'] is [l]
    commented out: [' ' * indent + '// ' + l.lstrip()]. *)
Definition commented_out (l l' : str) : Prop :=
  l' = l \/
  (commented l = false /\ nonempty (strip l) = true
   /\ l' = spaces (indent_of l) ++ lit "// " ++ lstrip l).

(** A line that is blank or a comment. *)
Definition blank_or_comment (l : str) : bool :=
  commented l || eqb (strip l) [].

(** The condition under which [fix_socket_comments.py] scans from a
    line. *)
Definition is_call_comment (line : str) : bool :=
  str_in (lit "//     io.to(") line || str_in (lit "//   io.to(") line.

(** The marker of the two migrations is in the line. *)
Definition has_todo (line : str) : bool :=
  str_in (lit "TODO: Replace with Ably") line.

(** The inner loop of [fix_socket_comments.py] finds nothing to
    comment in [rest]: it stops, or runs out of lines, before a closing
    line or a property line. *)
Fixpoint calm (rest : list str) : Prop :=
  match rest with
  | [] => True
  | l :: rest' =>
      eqb (strip l) (lit "});") = false
      /\ (FixSocketComments.stops (strip l) = true
          \/ (FixSocketComments.is_property (strip l) = false /\ calm rest'))
  end.

(** The scan from line [i], if there is one, finds nothing to comment. *)
Definition calm_at (lines : list str) (i : nat) : Prop :=
  forall line, lines !! i = Some line -> is_call_comment line = true ->
  calm (drop (S i) lines).

(** A line as [readlines] gives it inside a file: it ends with its
    newline and has no other. *)
Definition ends_line (l : str) : Prop :=
  exists body, l = body ++ [nl] /\ ~ In nl body.

(** The lines of a file as [readlines] gives them: only the last may
    lack its newline, and then it is not empty. *)
Fixpoint well_split (ls : list str) : Prop :=
  match ls with
  | [] => True
  | l :: ls' =>
      match ls' with
      | [] => ends_line l \/ (l <> [] /\ ~ In nl l)
      | _ :: _ => ends_line l /\ well_split ls'
      end
  end.

(** [p] is a payload fragment taken from a commented line of [rest]:
    the text of the line without its [//], trimmed, with the
    indentation of the line; not empty and not a closing token. *)
Definition fragment_of (rest : list str) (p : str * str) : Prop :=
  (exists l, In l rest /\ commented l = true
             /\ p = (spaces (indent_of l), fragment l))
  /\ nonempty p.2 = true /\ strip p.2 = p.2
  /\ p.2 <> lit "}" /\ p.2 <> lit "});".

End MoreNotions.

(** * Facts about the string primitives *)

Section StrFacts.

Lemma eqb_eq (a b : str) : eqb a b = true <-> a = b.
Proof.
  revert b; induction a as [|x a IH]; intros [|y b]; simpl; split; intros H;
    try done.
  - apply andb_true_iff in H as [H1 H2]. apply Ascii.eqb_eq in H1.
    apply IH in H2. by subst.
  - injection H as -> ->. rewrite Ascii.eqb_refl. simpl. by apply IH.
Qed.

Lemma count_app (a b : str) (c : ascii) :
  count (a ++ b) c = (count a c + count b c)%Z.
Proof. induction a as [|x a IH]; simpl; [done|]. rewrite IH. lia. Qed.

Lemma count_nonneg (s : str) (c : ascii) : (0 <= count s c)%Z.
Proof. induction s as [|x s IH]; simpl; [lia|]. destruct (Ascii.eqb x c); lia. Qed.

Lemma count_rev (s : str) (c : ascii) : count (rev s) c = count s c.
Proof.
  induction s as [|x s IH]; simpl; [done|].
  rewrite count_app, IH. simpl. lia.
Qed.

Lemma count_lstrip (s : str) (c : ascii) :
  isspace c = false -> count (lstrip s) c = count s c.
Proof.
  intros Hc. induction s as [|x s IH]; simpl; [done|].
  destruct (isspace x) eqn:Hx; simpl; [|done].
  rewrite IH. destruct (Ascii.eqb x c) eqn:E; [|lia].
  apply Ascii.eqb_eq in E. congruence.
Qed.

Lemma count_strip (s : str) (c : ascii) :
  isspace c = false -> count (strip s) c = count s c.
Proof.
  intros Hc. unfold strip, rstrip.
  by rewrite count_rev, count_lstrip, count_rev, count_lstrip.
Qed.

(** ['c' in s] is [s.count('c') > 0]. *)
Lemma str_in_char (s : str) (c : ascii) :
  str_in [c] s = (0 <? count s c)%Z.
Proof.
  induction s as [|x s IH]; simpl; [done|].
  rewrite IH. pose proof (count_nonneg s c).
  rewrite (Ascii.eqb_sym c x).
  destruct (Ascii.eqb x c); simpl.
  - symmetry. apply Z.ltb_lt. lia.
  - done.
Qed.

Lemma lstrip_spaces (n : nat) (s : str) : lstrip (spaces n ++ s) = lstrip s.
Proof. induction n as [|n IH]; simpl; done. Qed.

Lemma lstrip_app_nonspace (s t : str) (c : ascii) :
  isspace c = false -> lstrip (s ++ c :: t) = lstrip s ++ c :: t.
Proof.
  intros Hc. induction s as [|x s IH]; simpl.
  - by rewrite Hc.
  - destruct (isspace x); [apply IH | done].
Qed.

Lemma rstrip_cons_nonspace (c : ascii) (s : str) :
  isspace c = false -> rstrip (c :: s) = c :: rstrip s.
Proof.
  intros Hc. unfold rstrip. simpl.
  rewrite (lstrip_app_nonspace _ [] c Hc), rev_app_distr. done.
Qed.

(** A stripped string does not start with a space. *)
Lemma lstrip_head (s : str) (c : ascii) (t : str) :
  lstrip s = c :: t -> isspace c = false.
Proof.
  induction s as [|x s IH]; simpl; [done|].
  destruct (isspace x) eqn:E; [done|]. by intros [= <- _].
Qed.

Lemma strip_head (s : str) (c : ascii) (t : str) :
  strip s = c :: t -> isspace c = false.
Proof.
  unfold strip. destruct (lstrip s) as [|x u] eqn:E.
  - done.
  - pose proof (lstrip_head _ _ _ E) as Hx.
    rewrite rstrip_cons_nonspace by done. by intros [= <- _].
Qed.

Lemma length_lstrip_le (s : str) : length (lstrip s) <= length s.
Proof.
  induction s as [|x s IH]; simpl; [lia|]. destruct (isspace x); simpl; lia.
Qed.

Lemma length_spaces (n : nat) : length (spaces n) = n.
Proof. apply repeat_length. Qed.

Lemma startswith_app (p s : str) : startswith (p ++ s) p = true.
Proof.
  induction p as [|a p IH]; simpl; [done|]. by rewrite Ascii.eqb_refl.
Qed.

Lemma startswith_prefix (s p : str) :
  startswith s p = true <-> exists t, s = p ++ t.
Proof.
  revert s; induction p as [|a p IH]; intros s; simpl.
  - split; eauto.
  - destruct s as [|b s]; [split; [done | by intros [? ?]]|].
    rewrite andb_true_iff, Ascii.eqb_eq, IH. split.
    + intros [-> [t ->]]. eauto.
    + intros [t [= -> ->]]. eauto.
Qed.

Lemma str_in_startswith (x s : str) :
  startswith s x = true -> str_in x s = true.
Proof. intros H. destruct s; simpl; by rewrite H. Qed.

Lemma str_in_app (a x b : str) : str_in x (a ++ x ++ b) = true.
Proof.
  induction a as [|c a IH]; simpl.
  - apply str_in_startswith, startswith_app.
  - rewrite IH. apply orb_true_r.
Qed.

Lemma str_in_iff (x s : str) :
  str_in x s = true <-> exists a b, s = a ++ x ++ b.
Proof.
  split.
  - induction s as [|c s IH]; simpl.
    + rewrite orb_false_r. intros H. apply startswith_prefix in H as [t ->].
      by exists [], t.
    + intros H. apply orb_true_iff in H as [H|H].
      * apply startswith_prefix in H as [t ->]. by exists [], t.
      * destruct (IH H) as (a & b & ->). by exists (c :: a), b.
  - intros (a & b & ->). apply str_in_app.
Qed.

(** The two guarded updates of the brace counter on a string. *)
Lemma brace_update_str (bc : Z) (s : str) :
  (if str_in (lit "}") s
   then ((if str_in (lit "{") s then (bc + count s "{")%Z else bc)
         - count s "}")%Z
   else (if str_in (lit "{") s then (bc + count s "{")%Z else bc))
  = (bc + count s "{" - count s "}")%Z.
Proof.
  change (lit "{") with ["{"%char]. change (lit "}") with ["}"%char].
  rewrite !str_in_char.
  pose proof (count_nonneg s "{"). pose proof (count_nonneg s "}").
  destruct (0 <? count s "{")%Z eqn:E1; destruct (0 <? count s "}")%Z eqn:E2;
    try apply Z.ltb_ge in E1; try apply Z.ltb_ge in E2; lia.
Qed.

Lemma count_drop2 (s : str) (c : ascii) :
  startswith s (lit "//") = true -> c <> "/"%char ->
  count (drop 2 s) c = count s c.
Proof.
  intros H Hc. apply startswith_prefix in H as [t ->].
  change (lit "//") with ["/"; "/"]%char.
  change (drop 2 (["/"; "/"]%char ++ t)) with t. cbn [app count].
  assert (Ascii.eqb "/" c = false) as -> by (apply Ascii.eqb_neq; congruence).
  lia.
Qed.

Lemma indent_of_app_spaces (n : nat) (s : str) :
  indent_of (spaces n ++ s) = n + indent_of s.
Proof.
  unfold indent_of. rewrite lstrip_spaces, length_app, length_spaces.
  pose proof (length_lstrip_le s). lia.
Qed.

Lemma indent_of_cons_nonspace (c : ascii) (s : str) :
  isspace c = false -> indent_of (c :: s) = 0.
Proof. intros H. unfold indent_of. cbn. rewrite H. cbn. lia. Qed.

Lemma str_in_join_nl (x l : str) (ls : list str) :
  In l ls -> str_in x l = true -> str_in x (join_nl ls) = true.
Proof.
  intros Hin Hx. apply str_in_iff in Hx as (a & b & ->).
  induction ls as [|l' ls IH]; [done|].
  cbn [join_nl]. destruct Hin as [->|Hin].
  - destruct ls; [apply str_in_app|].
    rewrite <- !app_assoc. apply str_in_app.
  - destruct ls as [|l'' ls]; [done|].
    specialize (IH Hin). apply str_in_iff in IH as (a' & b' & ->).
    apply str_in_iff. exists (l' ++ nl :: a'), b'.
    by rewrite <- app_assoc.
Qed.

End StrFacts.

(** * Splitting and joining lines *)

Lemma split_nl_nonempty (s : str) : split_nl s <> [].
Proof.
  destruct s as [|c s]; simpl; [done|].
  destruct (Ascii.eqb c nl); [done|]. by destruct (split_nl s).
Qed.

Lemma split_nl_no_nl (s : str) : Forall (fun l => ~ In nl l) (split_nl s).
Proof.
  induction s as [|c s IH]; simpl.
  - constructor; [|constructor]. by intros [].
  - destruct (Ascii.eqb c nl) eqn:E.
    + constructor; [by intros []|done].
    + apply Ascii.eqb_neq in E.
      destruct (split_nl s) as [|l ls].
      * constructor; [|constructor]. intros [H|[]]. congruence.
      * inversion IH; subst. constructor; [|done].
        intros [H|H]; [congruence|done].
Qed.

Lemma split_nl_line (l : str) : ~ In nl l -> split_nl l = [l].
Proof.
  induction l as [|c l IH]; simpl; [done|]. intros H.
  destruct (Ascii.eqb c nl) eqn:E.
  - apply Ascii.eqb_eq in E. tauto.
  - rewrite IH by tauto. done.
Qed.

Lemma split_nl_app (l s : str) :
  ~ In nl l -> split_nl (l ++ nl :: s) = l :: split_nl s.
Proof.
  induction l as [|c l IH]; simpl; [done|]. intros H.
  destruct (Ascii.eqb c nl) eqn:E.
  - apply Ascii.eqb_eq in E. tauto.
  - rewrite IH by tauto. done.
Qed.

Lemma split_join_nl (ls : list str) :
  ls <> [] -> Forall (fun l => ~ In nl l) ls -> split_nl (join_nl ls) = ls.
Proof.
  induction ls as [|l ls IH]; [done|]. intros _ H. inversion H; subst.
  cbn [join_nl]. destruct ls as [|l' ls].
  - by apply split_nl_line.
  - rewrite split_nl_app by done. f_equal. by apply IH.
Qed.

(** * The orphan fixer: one scan step, and the block it rewrites *)

Module OrphanFacts.
Import FixAllSocketOrphans.
Import OrphanNotions.

Lemma brace_update (bc : Z) (l : str) :
  (if str_in (lit "}") (strip l)
   then ((if str_in (lit "{") (strip l)
          then (bc + count (strip l) "{")%Z else bc) - count (strip l) "}")%Z
   else (if str_in (lit "{") (strip l)
         then (bc + count (strip l) "{")%Z else bc)) = new_depth bc l.
Proof. rewrite brace_update_str, !count_strip by done. done. Qed.

(** One turn of the inner loop. *)
Lemma scan_cons (l : str) (rest : list str) (j : nat) (bc : Z) (acc : list nat) :
  scan (l :: rest) j bc acc =
  if negb (0 <? bc)%Z then Build_scan_state j bc acc
  else
    let bc' := new_depth bc l in
    let acc' := if selected bc' l then acc ++ [j] else acc in
    if (bc' =? 0)%Z then Build_scan_state j bc' acc'
    else scan rest (S j) bc' acc'.
Proof.
  cbn [scan]. destruct (negb (0 <? bc)%Z); [done|].
  cbv zeta. rewrite (brace_update bc l). unfold selected.
  fold (commented l).
  change (lit "}") with ["}"%char]. rewrite str_in_char, count_strip by done.
  destruct (new_depth bc l =? 0)%Z eqn:E.
  - apply Z.eqb_eq in E. rewrite E. simpl.
    by rewrite andb_false_r.
  - done.
Qed.

(** The accumulator only grows at its end. *)
Lemma scan_acc (rest : list str) (j : nat) (bc : Z) (acc : list nat) :
  scan rest j bc acc =
  let st := scan rest j bc [] in
  Build_scan_state (sc_j st) (sc_brace_count st)
    (acc ++ sc_properties_to_comment st).
Proof.
  revert j bc acc. induction rest as [|l rest IH]; intros j bc acc.
  - cbn. by rewrite app_nil_r.
  - rewrite !scan_cons. destruct (negb (0 <? bc)%Z).
    { cbn. by rewrite app_nil_r. }
    cbv zeta. destruct (new_depth bc l =? 0)%Z.
    { cbn. destruct (selected _ l); cbn; by rewrite ?app_nil_r. }
    rewrite IH. rewrite (IH _ _ (if selected _ l then [] ++ [j] else [])).
    cbn. destruct (selected _ l); cbn; by rewrite <- ?app_assoc.
Qed.

Lemma length_rewrite_block (rest : list str) (bc : Z) :
  length (rewrite_block rest bc) = length rest.
Proof.
  revert bc; induction rest as [|l rest IH]; intros bc; simpl; [done|].
  destruct (negb (0 <? bc)%Z); [done|]. simpl.
  destruct (new_depth bc l =? 0)%Z; [done|]. by rewrite IH.
Qed.

Lemma comment_at_middle (pre : list str) (l : str) (rest : list str) :
  comment_at (pre ++ l :: rest) (length pre) = pre ++ comment_line l :: rest.
Proof.
  unfold comment_at. rewrite list_lookup_middle by done.
  by rewrite insert_app_r_alt, Nat.sub_diag by done.
Qed.

(** The assignments of the [for] loop give [rewrite_block]. *)
Lemma foldl_comment_at (rest : list str) (pre : list str) (bc : Z) :
  foldl comment_at (pre ++ rest)
    (sc_properties_to_comment (scan rest (length pre) bc []))
  = pre ++ rewrite_block rest bc.
Proof.
  revert pre bc. induction rest as [|l rest IH]; intros pre bc.
  - done.
  - rewrite scan_cons. cbn [rewrite_block]. destruct (negb (0 <? bc)%Z); [done|].
    cbv zeta. destruct (new_depth bc l =? 0)%Z eqn:E.
    + destruct (selected _ l); cbn; [|done]. apply comment_at_middle.
    + rewrite scan_acc. cbn [sc_properties_to_comment].
      rewrite foldl_app.
      specialize (IH (pre ++ [if selected (new_depth bc l) l
                              then comment_line l else l]) (new_depth bc l)).
      rewrite length_app, Nat.add_1_r, <- app_assoc in IH. cbn in IH.
      rewrite <- app_assoc in IH. cbn in IH. rewrite <- IH.
      destruct (selected _ l); cbn; [|done].
      by rewrite comment_at_middle.
Qed.

(** ** Commenting a line *)

Lemma count_spaces (n : nat) (c : ascii) :
  c <> " "%char -> count (spaces n) c = 0%Z.
Proof.
  intros Hc. induction n as [|n IH]; [done|].
  change (spaces (S n)) with (" "%char :: spaces n). cbn [count]. rewrite IH.
  destruct (Ascii.eqb " " c) eqn:E; [|done].
  apply Ascii.eqb_eq in E. by subst.
Qed.

Lemma commented_comment_line (l : str) : commented (comment_line l) = true.
Proof.
  unfold commented, comment_line, strip.
  rewrite lstrip_spaces. change (lit "// ") with ("/" :: "/" :: [" "])%char.
  cbn [app lstrip]. change (isspace "/") with false. cbv iota.
  do 2 rewrite rstrip_cons_nonspace by done. done.
Qed.

Lemma count_comment_line (l : str) (c : ascii) :
  isspace c = false -> c <> "/"%char ->
  count (comment_line l) c = count l c.
Proof.
  intros Hs Hc. unfold comment_line.
  rewrite !count_app, count_lstrip, count_spaces by (done || by intros ->).
  change (lit "// ") with ("/" :: "/" :: [" "])%char. cbn [count].
  assert (Ascii.eqb "/" c = false) as -> by (apply Ascii.eqb_neq; congruence).
  assert (Ascii.eqb " " c = false) as ->
    by (apply Ascii.eqb_neq; by intros <-).
  lia.
Qed.

Lemma In_lstrip (c : ascii) (s : str) : In c (lstrip s) -> In c s.
Proof.
  induction s as [|x s IH]; simpl; [done|].
  destruct (isspace x); simpl; tauto.
Qed.

Lemma In_comment_line (l : str) : In nl (comment_line l) -> In nl l.
Proof.
  unfold comment_line. rewrite !in_app_iff. intros [H|[H|H]].
  - apply repeat_spec in H. discriminate.
  - cbn in H. unfold nl in H. intuition discriminate.
  - by apply In_lstrip.
Qed.

Lemma settles_refl (l : str) : settles l l.
Proof. by left. Qed.

Lemma settles_comment_line (l : str) : settles l (comment_line l).
Proof.
  right. split; [apply commented_comment_line|].
  rewrite !count_comment_line by done. auto using In_comment_line.
Qed.

Lemma settles_trans (a b c : str) : settles a b -> settles b c -> settles a c.
Proof.
  intros [->|(Hb1 & Hb2 & Hb3 & Hb4)] [->|(Hc1 & Hc2 & Hc3 & Hc4)];
    try (by left); right; try done.
  repeat split; try congruence. auto.
Qed.

Lemma settles_new_depth (l l' : str) (bc : Z) :
  settles l l' -> new_depth bc l' = new_depth bc l.
Proof. intros [->|(_ & H1 & H2 & _)]; [done|]. unfold new_depth. lia. Qed.

Lemma settles_selected (l l' : str) (bc : Z) :
  settles l l' -> selected bc l = false -> selected bc l' = false.
Proof.
  intros [->|(H & _)]; [done|]. intros _. unfold selected. rewrite H.
  by destruct (bc =? 0)%Z.
Qed.

Lemma Forall2_settles_refl (ls : list str) : Forall2 settles ls ls.
Proof. induction ls; constructor; auto using settles_refl. Qed.

Lemma Forall2_settles_trans (a b c : list str) :
  Forall2 settles a b -> Forall2 settles b c -> Forall2 settles a c.
Proof.
  intros H. revert c. induction H; intros c Hc; inversion Hc; subst;
    constructor; eauto using settles_trans.
Qed.

Lemma rewrite_block_settles (rest : list str) (bc : Z) :
  Forall2 settles rest (rewrite_block rest bc).
Proof.
  revert bc; induction rest as [|l rest IH]; intros bc; simpl; [constructor|].
  destruct (negb (0 <? bc)%Z); [apply Forall2_settles_refl|].
  constructor.
  - destruct (selected _ l); auto using settles_refl, settles_comment_line.
  - destruct (new_depth bc l =? 0)%Z; auto using Forall2_settles_refl.
Qed.

(** A scan that selects nothing selects nothing after more lines have
    been commented. *)
Lemma scan_settles (rest rest' : list str) (j : nat) (bc : Z) :
  Forall2 settles rest rest' ->
  sc_properties_to_comment (scan rest j bc []) = [] ->
  sc_properties_to_comment (scan rest' j bc []) = [].
Proof.
  intros H. revert j bc. induction H as [|l l' rest rest' Hl _ IH]; intros j bc.
  - done.
  - rewrite !scan_cons. destruct (negb (0 <? bc)%Z); [done|]. cbv zeta.
    rewrite (settles_new_depth l l' bc Hl).
    destruct (selected (new_depth bc l) l) eqn:Hs.
    + destruct (new_depth bc l =? 0)%Z; [done|].
      rewrite scan_acc. cbn. done.
    + rewrite (settles_selected l l' _ Hl Hs).
      destruct (new_depth bc l =? 0)%Z; [done|]. apply IH.
Qed.

Lemma selected_comment_line (bc : Z) (l : str) :
  selected bc (comment_line l) = false.
Proof.
  unfold selected. rewrite commented_comment_line. by destruct (bc =? 0)%Z.
Qed.

(** After the block has been rewritten the scan selects nothing. *)
Lemma scan_rewrite_block (rest : list str) (j : nat) (bc : Z) :
  sc_properties_to_comment (scan (rewrite_block rest bc) j bc []) = [].
Proof.
  revert j bc. induction rest as [|l rest IH]; intros j bc; [done|].
  cbn [rewrite_block]. destruct (negb (0 <? bc)%Z) eqn:E.
  { rewrite scan_cons, E. done. }
  cbv zeta. rewrite scan_cons, E. cbv zeta.
  assert (settles l (if selected (new_depth bc l) l then comment_line l else l))
    as Hl by (destruct (selected _ l);
              auto using settles_refl, settles_comment_line).
  rewrite (settles_new_depth _ _ bc Hl).
  assert (selected (new_depth bc l)
            (if selected (new_depth bc l) l then comment_line l else l) = false)
    as -> by (destruct (selected _ l) eqn:Hs;
              [apply selected_comment_line | done]).
  destruct (new_depth bc l =? 0)%Z; [done|]. apply IH.
Qed.

(** ** The outer loop *)

(** At a marker the loop body replaces [lines[i+1:]] by its rewritten
    block. *)
Lemma loop_body_lines (lines : list str) (i : nat) :
  i < length lines ->
  foldl comment_at lines
    (sc_properties_to_comment (scan (drop (S i) lines) (S i) 1 []))
  = take (S i) lines ++ rewrite_block (drop (S i) lines) 1.
Proof.
  intros Hi.
  pose proof (foldl_comment_at (drop (S i) lines) (take (S i) lines) 1) as H.
  rewrite take_drop in H. rewrite length_take in H.
  by replace (S i `min` length lines) with (S i) in H by lia.
Qed.

Lemma take_S_eq {A} (a b : list A) (i : nat) :
  take (S i) a = take (S i) b -> take i a = take i b.
Proof.
  intros H.
  assert (forall l : list A, take i l = take i (take (S i) l)) as E
    by (intros l; rewrite take_take; f_equal; lia).
  by rewrite (E a), (E b), H.
Qed.

Lemma Forall2_settles_drop (a b : list str) (n : nat) :
  Forall2 settles a b -> Forall2 settles (drop n a) (drop n b).
Proof. apply Forall2_drop. Qed.

Lemma quiet_settles (a b : list str) (i : nat) :
  Forall2 settles a b -> b !! i = a !! i -> quiet a i -> quiet b i.
Proof.
  intros Hab Hi Hq line Hline Hm. rewrite Hi in Hline.
  eapply scan_settles; [by apply Forall2_settles_drop | by eapply Hq].
Qed.

Lemma fix_loop_invariant (fuel : nat) (lines : list str) (i : nat) (m : bool) :
  let out := (fix_loop fuel lines i m).1 in
  Forall2 settles lines out /\ take i out = take i lines /\
  ((forall i', i' < i -> quiet lines i') -> length lines - i <= fuel ->
   forall i', quiet out i').
Proof.
  revert lines i m. induction fuel as [|fuel IH]; intros lines i m; cbn [fix_loop].
  - cbn. split; [apply Forall2_settles_refl|]. split; [done|].
    intros Hq Hf i'. destruct (decide (i' < i)); [by apply Hq|].
    intros line Hline. apply lookup_lt_Some in Hline. lia.
  - destruct (lines !! i) as [line|] eqn:Hi.
    2:{ cbn. split; [apply Forall2_settles_refl|]. split; [done|].
        intros Hq Hf i'. destruct (decide (i' < i)); [by apply Hq|].
        intros l Hl. apply lookup_lt_Some in Hl.
        apply lookup_ge_None in Hi. lia. }
    pose proof (lookup_lt_Some _ _ _ Hi) as Hlt.
    destruct (is_marker line) eqn:Hm.
    + cbv zeta. rewrite loop_body_lines by done.
      set (lines' := take (S i) lines ++ rewrite_block (drop (S i) lines) 1).
      assert (Forall2 settles lines lines') as Hs.
      { rewrite <- (take_drop (S i) lines) at 1. apply Forall2_app.
        - apply Forall2_settles_refl.
        - apply rewrite_block_settles. }
      assert (length lines' = length lines) as Hlen
        by (symmetry; by eapply Forall2_length).
      assert (take (S i) lines' = take (S i) lines) as Htk.
      { unfold lines'. rewrite take_app_le by (rewrite length_take; lia).
        rewrite take_take. f_equal. lia. }
      assert (forall n, n <= i -> lines' !! n = lines !! n) as Hsame.
      { intros n Hn. rewrite <- (lookup_take_lt lines' (S i) n) by lia.
        rewrite Htk. apply lookup_take_lt. lia. }
      specialize (IH lines' (S i) (m || negb (length
        (sc_properties_to_comment (scan (drop (S i) lines) (S i) 1 [])) =? 0))).
      cbv zeta in IH. destruct IH as (IH1 & IH2 & IH3).
      split; [eauto using Forall2_settles_trans|]. split.
      * apply take_S_eq. by rewrite IH2.
      * intros Hq Hf. apply IH3; [|lia].
        intros i' Hi'. destruct (decide (i' = i)) as [->|Hne].
        -- intros l Hl _. unfold lines'.
           rewrite drop_app_length' by (rewrite length_take; lia).
           apply scan_rewrite_block.
        -- apply (quiet_settles lines); [done| |apply Hq; lia].
           apply Hsame. lia.
    + specialize (IH lines (S i) m). cbv zeta in IH.
      destruct IH as (IH1 & IH2 & IH3). split; [done|]. split.
      * by apply take_S_eq.
      * intros Hq Hf. apply IH3; [|lia].
        intros i' Hi'. destruct (decide (i' = i)) as [->|Hne].
        -- intros l Hl Hml. congruence.
        -- apply Hq. lia.
Qed.

(** On a document where every scan is quiet the loop changes nothing. *)
Lemma fix_loop_quiet (fuel : nat) (lines : list str) (i : nat) (m : bool) :
  (forall i', quiet lines i') -> fix_loop fuel lines i m = (lines, m).
Proof.
  intros Hq. revert i m. induction fuel as [|fuel IH]; intros i m; cbn [fix_loop].
  - done.
  - destruct (lines !! i) as [line|] eqn:Hi; [|done].
    destruct (is_marker line) eqn:Hm; [|apply IH].
    cbv zeta. rewrite (Hq i line Hi Hm). cbn. rewrite orb_false_r. apply IH.
Qed.


(** ** Delimiter depth and the span of a block *)

Lemma stays_open_cons (bc : Z) (l : str) (ls : list str) :
  stays_open bc (l :: ls) ->
  (0 < new_depth bc l)%Z /\ stays_open (new_depth bc l) ls.
Proof.
  intros H. split.
  - apply (H 0). simpl. lia.
  - intros n Hn. apply (H (S n)). simpl. lia.
Qed.

Lemma stays_open_take (bc : Z) (ls : list str) (t : nat) :
  (forall u, u < t -> (0 < depth bc (take (S u) ls))%Z) -> t <= length ls ->
  stays_open bc (take t ls).
Proof.
  intros H Ht n Hn. rewrite length_take in Hn.
  rewrite take_take. replace (S n `min` t) with (S n) by lia. apply H. lia.
Qed.

Lemma depth_app (bc : Z) (a b : list str) :
  depth bc (a ++ b) = depth (depth bc a) b.
Proof. revert bc; induction a as [|l a IH]; intros bc; simpl; [done|apply IH]. Qed.

(** While the depth stays positive the scan goes on. *)
Lemma scan_stays_open (blk tail : list str) (j : nat) (bc : Z) (acc : list nat) :
  (0 < bc)%Z -> stays_open bc blk ->
  exists acc',
    scan (blk ++ tail) j bc acc = scan tail (j + length blk) (depth bc blk) acc'.
Proof.
  revert j bc acc. induction blk as [|l blk IH]; intros j bc acc Hbc Ho.
  - exists acc. cbn. by rewrite Nat.add_0_r.
  - apply stays_open_cons in Ho as [H1 H2].
    cbn [app]. rewrite scan_cons.
    assert (negb (0 <? bc)%Z = false) as -> by (apply negb_false_iff; lia).
    cbv zeta.
    assert ((new_depth bc l =? 0)%Z = false) as -> by lia.
    edestruct (IH (S j) (new_depth bc l)) as [acc' ->]; [done..|].
    exists acc'. cbn [length depth]. by rewrite Nat.add_succ_r.
Qed.

Lemma depth_positive (bc : Z) (blk : list str) :
  (0 < bc)%Z -> stays_open bc blk -> (0 < depth bc blk)%Z.
Proof.
  intros Hbc Ho. destruct blk as [|l blk] using rev_ind; [done|].
  specialize (Ho (length blk)). rewrite length_app in Ho. cbn in Ho.
  rewrite take_ge in Ho by (rewrite length_app; cbn; lia). apply Ho. lia.
Qed.

(** The scan leaves the loop on the first line that brings the depth
    to zero; that line is selected unless it is a comment already. *)
Lemma scan_closes (rest : list str) (j t : nat) (bc : Z) (l : str) :
  (0 < bc)%Z -> rest !! t = Some l ->
  (forall u, u < t -> (0 < depth bc (take (S u) rest))%Z) ->
  depth bc (take (S t) rest) = 0%Z ->
  let st := scan rest j bc [] in
  sc_j st = j + t /\ sc_brace_count st = 0%Z /\
  (commented l = false -> In (j + t) (sc_properties_to_comment st)).
Proof.
  intros Hbc Hl Hopen Hzero.
  pose proof (lookup_lt_Some _ _ _ Hl) as Hlt.
  rewrite <- (take_drop t rest).
  destruct (scan_stays_open (take t rest) (drop t rest) j bc [] Hbc) as [acc' ->].
  { apply stays_open_take; [done|lia]. }
  rewrite length_take. replace (t `min` length rest) with t by lia.
  assert (0 < depth bc (take t rest))%Z as Hd.
  { apply depth_positive; [done|]. apply stays_open_take; [done|lia]. }
  rewrite (drop_S _ _ _ Hl). rewrite scan_cons.
  assert (negb (0 <? depth bc (take t rest))%Z = false) as ->
    by (apply negb_false_iff; lia).
  cbv zeta.
  assert (new_depth (depth bc (take t rest)) l = 0%Z) as Hn.
  { rewrite <- Hzero. rewrite (take_S_r _ _ _ Hl), depth_app. done. }
  rewrite Hn. cbn. split; [done|]. split; [done|].
  intros Hc. unfold selected. cbn. rewrite Hc. cbn.
  assert ((0 <? count l "}")%Z = true) as ->.
  { unfold new_depth in Hn. pose proof (count_nonneg l "{"). lia. }
  apply in_or_app. right. by left.
Qed.

Lemma rewrite_block_stays_open (blk tail : list str) (bc : Z) :
  (0 < bc)%Z -> stays_open bc blk ->
  rewrite_block (blk ++ tail) bc
  = map comment_if_code blk ++ rewrite_block tail (depth bc blk).
Proof.
  revert bc. induction blk as [|l blk IH]; intros bc Hbc Ho; [done|].
  apply stays_open_cons in Ho as [H1 H2].
  cbn [app rewrite_block map depth].
  assert (negb (0 <? bc)%Z = false) as -> by (apply negb_false_iff; lia).
  cbv zeta. assert ((new_depth bc l =? 0)%Z = false) as -> by lia.
  rewrite IH by done. f_equal. unfold selected, comment_if_code.
  assert ((new_depth bc l =? 0)%Z = false) as -> by lia.
  assert ((0 <? new_depth bc l)%Z = true) as -> by lia.
  by rewrite andb_true_r.
Qed.

(** A line that takes the depth below zero ends the scan and is left
    as it is, with everything after it. *)
Lemma rewrite_block_negative (l : str) (tail : list str) (bc : Z) :
  (0 < bc)%Z -> (new_depth bc l < 0)%Z ->
  rewrite_block (l :: tail) bc = l :: tail.
Proof.
  intros Hbc Hn. cbn [rewrite_block].
  assert (negb (0 <? bc)%Z = false) as -> by (apply negb_false_iff; lia).
  cbv zeta. unfold selected.
  assert ((new_depth bc l =? 0)%Z = false) as -> by lia.
  assert ((0 <? new_depth bc l)%Z = false) as -> by lia.
  rewrite andb_false_r. f_equal. destruct tail as [|l' tail]; [done|].
  cbn [rewrite_block].
  by assert (negb (0 <? new_depth bc l)%Z = true) as ->
    by (apply negb_true_iff; lia).
Qed.

End OrphanFacts.

(** * The Ably migration: the property scan and the generated code *)

Module AblyFacts.
Import MigrateToAbly.
Import OrphanNotions AblyNotions.
Import OrphanFacts.

Lemma count_fragment (l : str) (c : ascii) :
  commented l = true -> isspace c = false -> c <> "/"%char ->
  count (fragment l) c = count l c.
Proof.
  intros Hl Hs Hc. unfold fragment.
  by rewrite count_strip, count_drop2, count_strip.
Qed.

(** One turn of the property loop. *)
Lemma scan_properties_cons (l : str) (rest : list str) (k : nat) (bc : Z)
    (props : list (str * str)) :
  scan_properties (l :: rest) k bc props =
  if negb (0 <? bc)%Z then Build_prop_state k bc props
  else if negb (commented l) then scan_properties rest (S k) bc props
  else
    let bc' := new_depth bc l in
    let props' :=
      if kept bc' l then props ++ [(spaces (indent_of l), fragment l)]
      else props in
    if (bc' =? 0)%Z then Build_prop_state k bc' props'
    else scan_properties rest (S k) bc' props'.
Proof.
  cbn [scan_properties]. destruct (negb (0 <? bc)%Z); [done|].
  cbv zeta. fold (commented l). destruct (commented l) eqn:Hc; [|done].
  cbn [negb]. fold (fragment l). rewrite (brace_update_str bc (fragment l)).
  rewrite !count_fragment by done. fold (new_depth bc l). done.
Qed.

Lemma scan_properties_closed (rest : list str) (k : nat) (bc : Z)
    (props : list (str * str)) :
  (bc <= 0)%Z -> scan_properties rest k bc props = Build_prop_state k bc props.
Proof.
  intros H. destruct rest as [|l rest]; [done|]. rewrite scan_properties_cons.
  by assert (negb (0 <? bc)%Z = true) as -> by (apply negb_true_iff; lia).
Qed.

(** The loop counts lines from wherever it starts. *)
Lemma scan_properties_shift (rest : list str) (k : nat) (bc : Z)
    (props : list (str * str)) :
  scan_properties rest (S k) bc props =
  let st := scan_properties rest k bc props in
  Build_prop_state (S (ps_k st)) (ps_brace_count st) (ps_properties st).
Proof.
  revert k bc props. induction rest as [|l rest IH]; intros k bc props; [done|].
  rewrite !scan_properties_cons. destruct (negb (0 <? bc)%Z); [done|].
  destruct (negb (commented l)); [apply IH|]. cbv zeta.
  destruct (new_depth bc l =? 0)%Z; [done|]. apply IH.
Qed.

Lemma scan_properties_k_le (rest : list str) (k : nat) (bc : Z)
    (props : list (str * str)) :
  k <= ps_k (scan_properties rest k bc props).
Proof.
  revert k bc props. induction rest as [|l rest IH]; intros k bc props; [done|].
  rewrite scan_properties_cons. destruct (negb (0 <? bc)%Z); [done|].
  destruct (negb (commented l)). { specialize (IH (S k) bc props). lia. }
  cbv zeta. destruct (new_depth bc l =? 0)%Z; [done|].
  match goal with |- _ <= ps_k (scan_properties _ _ ?b ?p) =>
    specialize (IH (S k) b p) end. lia.
Qed.

(** A line that is not a comment changes neither the depth nor the
    fragments, wherever it stands. *)
Lemma scan_properties_skip (pre : list str) (u : str) (post : list str)
    (k : nat) (bc : Z) (props : list (str * str)) :
  commented u = false ->
  let a := scan_properties (pre ++ u :: post) k bc props in
  let b := scan_properties (pre ++ post) k bc props in
  ps_properties a = ps_properties b /\ ps_brace_count a = ps_brace_count b /\
  (ps_k a = ps_k b \/ ps_k a = S (ps_k b)).
Proof.
  intros Hu. revert k bc props.
  induction pre as [|l pre IH]; intros k bc props; cbn [app].
  - rewrite scan_properties_cons, Hu. cbn [negb].
    destruct (negb (0 <? bc)%Z) eqn:E.
    + rewrite scan_properties_closed by (apply negb_true_iff in E; lia).
      cbn. auto.
    + rewrite scan_properties_shift. cbn. auto.
  - rewrite !scan_properties_cons. destruct (negb (0 <? bc)%Z); [cbn; auto|].
    destruct (negb (commented l)); [apply IH|]. cbv zeta.
    destruct (new_depth bc l =? 0)%Z; [cbn; auto|]. apply IH.
Qed.

(** Through commented lines that keep the depth positive the scan goes
    on, whatever follows them. *)
Lemma scan_properties_stays_open (blk : list str) (k : nat) (bc : Z)
    (props : list (str * str)) :
  (0 < bc)%Z -> Forall (fun l => commented l = true) blk -> stays_open bc blk ->
  exists props', forall tail,
    scan_properties (blk ++ tail) k bc props
    = scan_properties tail (k + length blk) (depth bc blk) props'.
Proof.
  revert k bc props. induction blk as [|l blk IH]; intros k bc props Hbc Hc Ho.
  - exists props. intros tail. cbn. by rewrite Nat.add_0_r.
  - apply stays_open_cons in Ho as [H1 H2]. inversion Hc as [|? ? Hl Hc']; subst.
    edestruct (IH (S k) (new_depth bc l)) as [props' Hp]; [done..|].
    exists props'. intros tail.
    cbn [app]. rewrite scan_properties_cons, Hl.
    assert (negb (0 <? bc)%Z = false) as -> by (apply negb_false_iff; lia).
    cbn [negb]. cbv zeta.
    assert ((new_depth bc l =? 0)%Z = false) as -> by lia.
    rewrite Hp. cbn [length depth]. by rewrite Nat.add_succ_r.
Qed.

(** The property loop leaves on the first line that brings the depth to
    zero. *)
Lemma scan_properties_closes (rest : list str) (k t : nat) (bc : Z) :
  (0 < bc)%Z -> t < length rest ->
  Forall (fun l => commented l = true) (take (S t) rest) ->
  (forall u, u < t -> (0 < depth bc (take (S u) rest))%Z) ->
  depth bc (take (S t) rest) = 0%Z ->
  let st := scan_properties rest k bc [] in
  ps_k st = k + t /\ ps_brace_count st = 0%Z.
Proof.
  intros Hbc Hlt Hc Hopen Hzero.
  destruct (lookup_lt_is_Some_2 rest t Hlt) as [l Hl].
  rewrite (take_S_r _ _ _ Hl) in Hc. apply Forall_app in Hc as [Hc1 Hc2].
  inversion Hc2 as [|? ? Hcl _]; subst.
  rewrite <- (take_drop t rest).
  destruct (scan_properties_stays_open (take t rest) k bc [] Hbc Hc1)
    as [props' ->].
  { apply stays_open_take; [done|lia]. }
  rewrite length_take. replace (t `min` length rest) with t by lia.
  assert (0 < depth bc (take t rest))%Z as Hd.
  { apply depth_positive; [done|]. apply stays_open_take; [done|lia]. }
  rewrite (drop_S _ _ _ Hl). rewrite scan_properties_cons, Hcl.
  assert (negb (0 <? depth bc (take t rest))%Z = false) as ->
    by (apply negb_false_iff; lia).
  cbn [negb]. cbv zeta.
  assert (new_depth (depth bc (take t rest)) l = 0%Z) as Hn.
  { rewrite <- Hzero. rewrite (take_S_r _ _ _ Hl), depth_app. done. }
  rewrite Hn. done.
Qed.

(** A block that never closes is scanned to the end of the file. *)
Lemma scan_properties_truncated (rest : list str) (k : nat) (bc : Z) :
  (0 < bc)%Z -> Forall (fun l => commented l = true) rest -> stays_open bc rest ->
  ps_k (scan_properties rest k bc []) = k + length rest.
Proof.
  intros Hbc Hc Ho.
  destruct (scan_properties_stays_open rest k bc [] Hbc Hc Ho) as [props' H].
  specialize (H []). rewrite app_nil_r in H. by rewrite H.
Qed.


(** ** One turn of the outer loop *)

Lemma migrate_loop_spliced (fuel : nat) (lines : list str) (i : nat)
    (m : bool) (line : str) (fc : found_call) :
  lines !! i = Some line ->
  str_in (lit "// TODO: Replace with Ably") line = true ->
  find_call (drop (S i) lines) i (S i) = Some fc ->
  exists i', migrate_loop (S fuel) lines i m
             = migrate_loop fuel (spliced lines i fc) i' true.
Proof. intros Hi Ht Hf. cbn [migrate_loop]. rewrite Hi, Ht, Hf. eauto. Qed.

(** A line of the block that is not a comment does not show in the
    document after the turn. *)
Lemma spliced_skip (head pre : list str) (u : str) (post : list str) (i : nat)
    (fc : found_call) :
  commented u = false -> i <= fc_j fc -> length head = S (fc_j fc) ->
  Forall (fun l => commented l = true) pre -> stays_open 1 pre ->
  spliced (head ++ pre ++ u :: post) i fc = spliced (head ++ pre ++ post) i fc.
Proof.
  intros Hu Hi Hh Hc Ho. unfold spliced.
  rewrite <- Hh, !drop_app_length.
  destruct (scan_properties_stays_open pre (length head) 1 [] ltac:(lia) Hc Ho)
    as [props' Hp].
  rewrite !Hp. rewrite scan_properties_cons, Hu.
  pose proof (depth_positive 1 pre ltac:(lia) Ho) as Hd.
  assert (negb (0 <? depth 1 pre)%Z = false) as ->
    by (apply negb_false_iff; lia).
  cbn [negb]. rewrite scan_properties_shift. cbv zeta.
  cbn [ps_k ps_properties].
  pose proof (scan_properties_k_le post (length head + length pre)
                (depth 1 pre) props') as Hk.
  set (kb := ps_k (scan_properties post (length head + length pre)
                     (depth 1 pre) props')) in *.
  rewrite !take_app_le by lia. do 2 f_equal.
  rewrite !(app_assoc head pre).
  rewrite !drop_app_ge by (rewrite length_app; lia).
  rewrite length_app.
  replace (S (S kb) - (length head + length pre))
    with (S (S kb - (length head + length pre))) by lia.
  done.
Qed.

(** ** Payload fragments and the indentation of the generated code *)

Lemma strip_starts_nonspace (s : str) :
  nonempty (strip s) = true -> starts_nonspace (strip s).
Proof.
  destruct (strip s) as [|c t] eqn:E; [done|]. intros _.
  exists c, t. split; [done|]. by eapply strip_head.
Qed.

Lemma scan_properties_fragments (rest : list str) (k : nat) (bc : Z)
    (props : list (str * str)) :
  Forall (fun p => starts_nonspace p.2) props ->
  Forall (fun p => starts_nonspace p.2)
    (ps_properties (scan_properties rest k bc props)).
Proof.
  revert k bc props. induction rest as [|l rest IH]; intros k bc props Hp; [done|].
  rewrite scan_properties_cons. destruct (negb (0 <? bc)%Z); [done|].
  destruct (negb (commented l)); [by apply IH|]. cbv zeta.
  assert (Forall (fun p => starts_nonspace p.2)
            (if kept (new_depth bc l) l
             then props ++ [(spaces (indent_of l), fragment l)] else props)) as Hp'.
  { destruct (kept _ l) eqn:Hk; [|done]. apply Forall_app. split; [done|].
    constructor; [|constructor]. cbn. apply strip_starts_nonspace.
    unfold kept in Hk. fold (fragment l).
    by destruct (nonempty (fragment l)). }
  destruct (new_depth bc l =? 0)%Z; [done|]. by apply IH.
Qed.

(** The indentation of a generated line that is all literal. *)
Ltac indent_lit :=
  rewrite indent_of_app_spaces;
  match goal with
  | |- ?n + ?x = _ => let v := eval vm_compute in x in change x with v
  end; lia.

Lemma indent_of_lit_line (n m : nat) (c : ascii) (t : str) :
  isspace c = false -> indent_of (spaces n ++ spaces m ++ c :: t) = n + m.
Proof.
  intros Hc. rewrite !indent_of_app_spaces, indent_of_cons_nonspace by done. lia.
Qed.

(** The indentation of every line of the replacement: the lines of the
    [try], [catch] and closing brace at [n], their bodies at [n + 2] and
    the payload fragments at [n + 4]. *)
Lemma build_replacement_indents (n : nat) (channel event : str)
    (props : list (str * str)) :
  Forall (fun p => starts_nonspace p.2) props ->
  map indent_of (build_replacement (spaces n) channel event props)
  = [n; n; n + 2] ++ map (fun _ => n + 4) props ++ [n + 2; n; n + 2; n].
Proof.
  intros Hp. unfold build_replacement. rewrite !map_app. f_equal; [|f_equal].
  - cbn [map]. f_equal; [|f_equal; [|f_equal]].
    + indent_lit.
    + indent_lit.
    + apply (indent_of_lit_line n 2). done.
  - rewrite map_map. induction Hp as [|[pi p] props Hp _ IH]; [done|].
    cbn [map]. f_equal; [|done]. cbn in Hp. destruct Hp as (c & t & -> & Hc).
    apply (indent_of_lit_line n 4). done.
  - cbn [map]. f_equal; [|f_equal; [|f_equal; [|f_equal]]]; indent_lit.
Qed.

End AblyFacts.

(** * The TODO migration *)

Module TodosFacts.
Import MigrateTodos.
Import AblyNotions.
Import AblyFacts.

Lemma payload_loop_fragments (lines : list str) (in_payload : bool)
    (acc : list str) :
  Forall starts_nonspace acc ->
  Forall starts_nonspace (payload_loop lines in_payload acc).
Proof.
  revert in_payload acc.
  induction lines as [|l lines IH]; intros in_payload acc Ha; [done|].
  cbn [payload_loop].
  destruct (str_in (lit "{") l && negb in_payload); [by apply IH|].
  destruct (str_in (lit "});") l); [done|].
  destruct in_payload; [|by apply IH]. cbv zeta. apply IH.
  destruct (startswith (strip l) (lit "//")).
  - destruct (nonempty (strip (drop 2 (strip l)))) eqn:E; [|done]. cbn [andb].
    destruct (negb _); [|done]. apply Forall_app. split; [done|].
    constructor; [|constructor]. by apply strip_starts_nonspace.
  - destruct (nonempty (strip l)) eqn:E; [|done]. cbn [andb].
    destruct (negb _); [|done]. apply Forall_app. split; [done|].
    constructor; [|constructor]. by apply strip_starts_nonspace.
Qed.

Lemma extract_payload_fragments (lines : list str) :
  Forall starts_nonspace (extract_payload lines).
Proof. apply payload_loop_fragments. constructor. Qed.

Lemma replacement_lines_indents (n : nat) (channel event : str)
    (payload_lines : list str) :
  Forall starts_nonspace payload_lines ->
  map indent_of (replacement_lines (spaces n) channel event payload_lines)
  = [n; n + 2] ++ map (fun _ => n + 4) payload_lines ++ [n + 2; n; n + 2; n].
Proof.
  intros Hp. unfold replacement_lines. rewrite !map_app. f_equal; [|f_equal].
  - cbn [map]. f_equal; [|f_equal].
    + indent_lit.
    + apply (indent_of_lit_line n 2). done.
  - rewrite map_map. induction Hp as [|p props Hp _ IH]; [done|].
    cbn [map]. f_equal; [|done]. destruct Hp as (c & t & -> & Hc).
    apply (indent_of_lit_line n 4). done.
  - cbn [map]. f_equal; [|f_equal; [|f_equal; [|f_equal]]];
      try indent_lit.
    apply (indent_of_lit_line n 2). done.
Qed.

End TodosFacts.

(** * The first comment fixer *)

Module CommentFacts.
Import FixSocketComments.
Import CommentNotions.

Lemma stops_not_closing (s : str) : stops s = true -> eqb s (lit "});") = false.
Proof.
  intros H. destruct (eqb s (lit "});")) eqn:E; [|done].
  apply eqb_eq in E. subst. discriminate.
Qed.

End CommentFacts.

(** * The step budgets are enough

    Every outer loop is run with [len(lines)] steps.  A turn of a loop
    makes [len(lines) - i] smaller, so any budget of at least that many
    steps gives the same result: no run stops for lack of steps. *)

Module Budget.

Lemma orphans_fix_loop (f1 f2 : nat) (lines : list str) (i : nat) (m : bool) :
  length lines - i <= f1 -> length lines - i <= f2 ->
  FixAllSocketOrphans.fix_loop f1 lines i m
  = FixAllSocketOrphans.fix_loop f2 lines i m.
Proof.
  revert f2 lines i m. induction f1 as [|f1 IH]; intros f2 lines i m H1 H2.
  - assert (lines !! i = None) as Hi by (apply lookup_ge_None; lia).
    destruct f2; cbn; by rewrite ?Hi.
  - destruct f2 as [|f2].
    { assert (lines !! i = None) as Hi by (apply lookup_ge_None; lia).
      cbn. by rewrite Hi. }
    cbn [FixAllSocketOrphans.fix_loop].
    destruct (lines !! i) as [line|] eqn:Hi; [|done].
    pose proof (lookup_lt_Some _ _ _ Hi) as Hlt.
    destruct (FixAllSocketOrphans.is_marker line).
    + cbv zeta. rewrite OrphanFacts.loop_body_lines by done.
      apply IH; rewrite length_app, length_take,
        OrphanFacts.length_rewrite_block, length_drop; lia.
    + apply IH; lia.
Qed.

Lemma length_comment_orphans (rest : list str) (m : bool) :
  length (FixSocketComments.comment_orphans rest m).1 = length rest.
Proof.
  revert m. induction rest as [|l rest IH]; intros m; [done|].
  cbn [FixSocketComments.comment_orphans].
  destruct (eqb _ _); [done|]. destruct (FixSocketComments.stops _); [done|].
  destruct (FixSocketComments.is_property _);
    match goal with
    | |- context [FixSocketComments.comment_orphans rest ?b] =>
        specialize (IH b);
        destruct (FixSocketComments.comment_orphans rest b)
    end; cbn in *; by rewrite IH.
Qed.

Lemma comments_fix_loop (f1 f2 : nat) (lines : list str) (i : nat) (m : bool) :
  length lines - i <= f1 -> length lines - i <= f2 ->
  FixSocketComments.fix_loop f1 lines i m
  = FixSocketComments.fix_loop f2 lines i m.
Proof.
  revert f2 lines i m. induction f1 as [|f1 IH]; intros f2 lines i m H1 H2.
  - assert (lines !! i = None) as Hi by (apply lookup_ge_None; lia).
    destruct f2; cbn; by rewrite ?Hi.
  - destruct f2 as [|f2].
    { assert (lines !! i = None) as Hi by (apply lookup_ge_None; lia).
      cbn. by rewrite Hi. }
    cbn [FixSocketComments.fix_loop].
    destruct (lines !! i) as [line|] eqn:Hi; [|done].
    pose proof (lookup_lt_Some _ _ _ Hi) as Hlt.
    destruct (orb _ _).
    + pose proof (length_comment_orphans (drop (S i) lines) m) as Hlen.
      destruct (FixSocketComments.comment_orphans (drop (S i) lines) m)
        as [rest m'].
      cbn in Hlen. rewrite length_drop in Hlen.
      apply IH; rewrite length_app, length_take, Hlen; lia.
    + apply IH; lia.
Qed.

Lemma find_call_j (rest : list str) (i j : nat) (fc : MigrateToAbly.found_call) :
  MigrateToAbly.find_call rest i j = Some fc -> j <= MigrateToAbly.fc_j fc.
Proof.
  revert j. induction rest as [|l rest IH]; intros j; [done|].
  cbn [MigrateToAbly.find_call]. cbv zeta.
  match goal with
  | |- context [match ?x with Some _ => _ | None => _ end] =>
      destruct x as [[channel event]|]
  end.
  - by intros [= <-].
  - destruct (50 <? S j - i); [done|]. intros H. apply IH in H. lia.
Qed.

Lemma ably_migrate_loop (f1 f2 : nat) (lines : list str) (i : nat) (m : bool) :
  length lines - i <= f1 -> length lines - i <= f2 ->
  MigrateToAbly.migrate_loop f1 lines i m
  = MigrateToAbly.migrate_loop f2 lines i m.
Proof.
  revert f2 lines i m. induction f1 as [|f1 IH]; intros f2 lines i m H1 H2.
  - assert (lines !! i = None) as Hi by (apply lookup_ge_None; lia).
    destruct f2; cbn; by rewrite ?Hi.
  - destruct f2 as [|f2].
    { assert (lines !! i = None) as Hi by (apply lookup_ge_None; lia).
      cbn. by rewrite Hi. }
    cbn [MigrateToAbly.migrate_loop].
    destruct (lines !! i) as [line|] eqn:Hi; [|done].
    pose proof (lookup_lt_Some _ _ _ Hi) as Hlt.
    destruct (str_in _ line); [|apply IH; lia].
    destruct (MigrateToAbly.find_call _ _ _) as [fc|] eqn:Hfc; [|apply IH; lia].
    apply find_call_j in Hfc. cbv zeta.
    pose proof (AblyFacts.scan_properties_k_le
                  (drop (S (MigrateToAbly.fc_j fc)) lines)
                  (S (MigrateToAbly.fc_j fc)) 1 []) as Hk.
    apply IH; rewrite !length_app, length_take, length_drop; lia.
Qed.

Lemma collect_block_j (rest : list str) (j : nat) (acc : list str) :
  j <= (MigrateTodos.collect_block rest j acc).2.
Proof.
  revert j acc. induction rest as [|l rest IH]; intros j acc; [done|].
  cbn [MigrateTodos.collect_block]. destruct (orb _ _); [|done]. cbv zeta.
  destruct (str_in _ l); [cbn; lia|].
  specialize (IH (S j) (acc ++ [l])). lia.
Qed.

Lemma todos_migrate_loop (f1 f2 : nat) (lines : list str) (i : nat)
    (new_lines : list str) (n : nat) :
  length lines - i <= f1 -> length lines - i <= f2 ->
  MigrateTodos.migrate_loop f1 lines i new_lines n
  = MigrateTodos.migrate_loop f2 lines i new_lines n.
Proof.
  revert f2 i new_lines n.
  induction f1 as [|f1 IH]; intros f2 i new_lines n H1 H2.
  - assert (lines !! i = None) as Hi by (apply lookup_ge_None; lia).
    destruct f2; cbn; by rewrite ?Hi.
  - destruct f2 as [|f2].
    { assert (lines !! i = None) as Hi by (apply lookup_ge_None; lia).
      cbn. by rewrite Hi. }
    cbn [MigrateTodos.migrate_loop].
    destruct (lines !! i) as [line|] eqn:Hi; [|done].
    pose proof (lookup_lt_Some _ _ _ Hi) as Hlt. cbv zeta.
    destruct (str_in _ line); [|apply IH; lia].
    pose proof (collect_block_j (drop (S i) lines) (S i) [line]) as Hj.
    destruct (MigrateTodos.collect_block _ _ _) as [block_lines j]. cbn in Hj.
    destruct (MigrateTodos.extract_channel_and_event block_lines)
      as [[channel event]|]; [|apply IH; lia].
    destruct (andb _ _); apply IH; lia.
Qed.

End Budget.

(** * Inserting the import *)

Module ImportFacts.
Import MigrateToAbly.
Import ImportNotions.

Lemma last_require_none (rest : list str) (i : nat) (last : Z) :
  Forall (fun l => is_require l = false) rest -> last_require rest i last = last.
Proof.
  intros H. revert i. induction H as [|l rest Hl _ IH]; intros i; [done|].
  cbn [last_require]. fold (is_require l). rewrite Hl. apply IH.
Qed.

Lemma last_require_last (pre : list str) (r : str) (post : list str)
    (i : nat) (last : Z) :
  is_require r = true -> Forall (fun l => is_require l = false) post ->
  last_require (pre ++ r :: post) i last = Z.of_nat (i + length pre).
Proof.
  intros Hr Hpost. revert i last.
  induction pre as [|l pre IH]; intros i last; cbn [app last_require].
  - fold (is_require r). rewrite Hr, last_require_none by done.
    cbn. by rewrite Nat.add_0_r.
  - rewrite IH. simpl length. lia.
Qed.

Lemma first_code_none (rest : list str) (i : nat) (last : Z) :
  Forall (fun l => is_code l = false) rest -> first_code rest i last = last.
Proof.
  intros H. revert i. induction H as [|l rest Hl _ IH]; intros i; [done|].
  cbn [first_code]. fold (is_code l). rewrite Hl. apply IH.
Qed.

Lemma first_code_first (pre : list str) (c : str) (post : list str)
    (i : nat) (last : Z) :
  Forall (fun l => is_code l = false) pre -> is_code c = true ->
  first_code (pre ++ c :: post) i last = (Z.of_nat (i + length pre) - 1)%Z.
Proof.
  intros Hpre Hc. revert i.
  induction Hpre as [|l pre Hl _ IH]; intros i; cbn [app first_code].
  - fold (is_code c). rewrite Hc. cbn. by rewrite Nat.add_0_r.
  - fold (is_code l). rewrite Hl, IH. simpl length. lia.
Qed.

Lemma import_line_names_adapter (filepath : str) :
  str_in (lit "ably-adapter") (import_line filepath) = true.
Proof. unfold import_line. by destruct (startswith filepath _). Qed.

(** With a require statement in the file the import goes right after
    the last one. *)
Lemma add_after_last_require (filepath content : str)
    (pre : list str) (r : str) (post : list str) :
  references_adapter content = false ->
  split_nl content = pre ++ r :: post ->
  is_require r = true -> Forall (fun l => is_require l = false) post ->
  add_ably_import filepath content
  = Some (join_nl (pre ++ r :: import_line filepath :: post)).
Proof.
  intros Hg Hs Hr Hpost. unfold add_ably_import.
  fold (references_adapter content). rewrite Hg, Hs. cbv zeta.
  rewrite last_require_last by done. cbn [Nat.add].
  assert ((Z.of_nat (length pre) =? -1)%Z = false) as ->
    by (apply Z.eqb_neq; lia).
  replace (Z.to_nat (Z.of_nat (length pre) + 1)) with (S (length pre)) by lia.
  unfold list_insert_at. do 2 f_equal.
  rewrite (cons_middle r pre post), app_assoc.
  replace (S (length pre)) with (length (pre ++ [r]))
    by (rewrite length_app; cbn; lia).
  rewrite take_app_length, drop_app_length, <- app_assoc. done.
Qed.

(** Without a require statement it goes before the first line of
    code. *)
Lemma add_before_first_code (filepath content : str)
    (pre : list str) (c : str) (post : list str) :
  references_adapter content = false ->
  split_nl content = pre ++ c :: post ->
  Forall (fun l => is_require l = false) (pre ++ c :: post) ->
  Forall (fun l => is_code l = false) pre -> is_code c = true ->
  add_ably_import filepath content
  = Some (join_nl (pre ++ import_line filepath :: c :: post)).
Proof.
  intros Hg Hs Hreq Hpre Hc. unfold add_ably_import.
  fold (references_adapter content). rewrite Hg, Hs. cbv zeta.
  rewrite last_require_none by done. cbn [Z.eqb Pos.eqb].
  rewrite first_code_first by done. cbn [Nat.add].
  replace (Z.to_nat (Z.of_nat (length pre) - 1 + 1)) with (length pre) by lia.
  unfold list_insert_at. by rewrite take_app_length, drop_app_length.
Qed.

(** With neither it goes first in the file. *)
Lemma add_at_top (filepath content : str) :
  references_adapter content = false ->
  Forall (fun l => is_require l = false) (split_nl content) ->
  Forall (fun l => is_code l = false) (split_nl content) ->
  add_ably_import filepath content
  = Some (join_nl (import_line filepath :: split_nl content)).
Proof.
  intros Hg Hreq Hcode. unfold add_ably_import.
  fold (references_adapter content). rewrite Hg. cbv zeta.
  rewrite last_require_none by done. cbn [Z.eqb Pos.eqb].
  rewrite first_code_none by done. done.
Qed.

(** A file that has been given the import is not given it again. *)
Lemma add_ably_import_once (filepath content out : str) :
  add_ably_import filepath content = Some out ->
  add_ably_import filepath out = None.
Proof.
  unfold add_ably_import. destruct (orb _ _); [done|]. cbv zeta.
  intros [= <-].
  rewrite (str_in_join_nl (lit "ably-adapter") (import_line filepath)); [done| |].
  - unfold list_insert_at. apply in_or_app. right. by left.
  - apply import_line_names_adapter.
Qed.

End ImportFacts.

(** * The claims *)

Import OrphanNotions AblyNotions CommentNotions ImportNotions Samples.

Lemma settles_no_nl (a b : list str) :
  Forall2 settles a b ->
  Forall (fun l => ~ In nl l) a -> Forall (fun l => ~ In nl l) b.
Proof.
  induction 1 as [|l l' a b Hl _ IH]; intros Ha; [done|].
  inversion Ha; subst. constructor; [|auto].
  destruct Hl as [->|(_ & _ & _ & Hnl)]; auto.
Qed.

(** C1 (amended).  Running the orphan fixer on the text it has written
    changes nothing: the loop, however many steps it is given, gives
    back the same lines with [modified] false, and the file is not
    written again.  (The marker lines are still there and are met
    again; the run finds nothing left to comment under them.) *)
Theorem C1_orphan_fix_rerun_is_noop (content out : str) :
  FixAllSocketOrphans.fix_file content = Some out ->
  let lines := split_nl out in
  (forall fuel,
     FixAllSocketOrphans.fix_loop fuel lines 0 false = (lines, false))
  /\ FixAllSocketOrphans.fix_file out = None.
Proof.
  unfold FixAllSocketOrphans.fix_file. intros H.
  pose proof (OrphanFacts.fix_loop_invariant (length (split_nl content))
                (split_nl content) 0 false) as Hinv.
  destruct (FixAllSocketOrphans.fix_loop (length (split_nl content))
              (split_nl content) 0 false) as [lines' m].
  destruct m; [|done]. injection H as <-.
  cbv zeta in Hinv. cbn [fst] in Hinv. destruct Hinv as (Hs & _ & Hq).
  assert (lines' <> []) as Hne.
  { intros ->. apply Forall2_nil_inv_r in Hs.
    by apply (split_nl_nonempty content). }
  assert (Forall (fun l => ~ In nl l) lines') as Hnl
    by (eapply settles_no_nl; [done | apply split_nl_no_nl]).
  cbv zeta. rewrite split_join_nl by done.
  assert (forall i', quiet lines' i') as Hquiet
    by (apply Hq; [intros i' Hi'; lia | lia]).
  split; [intros fuel|]; by rewrite OrphanFacts.fix_loop_quiet.
Qed.

Lemma C1_orphan_fix_rerun_witness :
  FixAllSocketOrphans.fix_file orphan_doc = Some orphan_doc_fixed
  /\ (let lines := split_nl orphan_doc_fixed in
      (forall fuel,
         FixAllSocketOrphans.fix_loop fuel lines 0 false = (lines, false))
      /\ FixAllSocketOrphans.fix_file orphan_doc_fixed = None).
Proof.
  split; [vm_compute; reflexivity|].
  apply (C1_orphan_fix_rerun_is_noop orphan_doc orphan_doc_fixed).
  vm_compute; reflexivity.
Defined.

(** C1 as stated fails twice.  The text the orphan fixer writes still
    holds its marker line, which a second run meets again.  And the
    text the Ably migration writes for two adjacent TODO blocks still
    holds the second block, whose marker the first run stepped over; a
    second run rewrites it, so the second run writes the file. *)
Lemma C1_rerun_counterexample :
  (FixAllSocketOrphans.fix_file orphan_doc = Some orphan_doc_fixed
   /\ exists line, split_nl orphan_doc_fixed !! 1 = Some line
                   /\ FixAllSocketOrphans.is_marker line = true)
  /\ (MigrateToAbly.migrate_socket_to_ably two_blocks_doc = Some two_blocks_once
      /\ MigrateToAbly.migrate_socket_to_ably two_blocks_once
         = Some two_blocks_twice
      /\ two_blocks_twice <> two_blocks_once).
Proof.
  split; [split|split; [|split]].
  - vm_compute; reflexivity.
  - eexists. split; vm_compute; reflexivity.
  - vm_compute; reflexivity.
  - vm_compute; reflexivity.
  - vm_compute. discriminate.
Qed.

(** C2 (amended).  A block whose depth never comes back to zero is not
    skipped.  The orphan fixer comments every line it reads while the
    depth is positive that is neither blank nor a comment already, up
    to the end of the file or up to the line that takes the depth below
    zero; that line and the lines after it are kept.  The Ably
    migration of commented lines that stay open to the end of the file
    scans to that end, so that [lines[i:k+1]] reaches it. *)
Theorem C2_unclosed_block_is_rewritten (pre blk tail : list str) :
  stays_open 1 blk ->
  (tail = [] \/
   exists l tl, tail = l :: tl /\ (new_depth (depth 1 blk) l < 0)%Z) ->
  foldl FixAllSocketOrphans.comment_at (pre ++ blk ++ tail)
    (FixAllSocketOrphans.sc_properties_to_comment
       (FixAllSocketOrphans.scan (blk ++ tail) (length pre) 1 []))
  = pre ++ map comment_if_code blk ++ tail
  /\ (tail = [] -> Forall (fun l => commented l = true) blk ->
      MigrateToAbly.ps_k (MigrateToAbly.scan_properties blk (length pre) 1 [])
      = length (pre ++ blk)).
Proof.
  intros Ho Htail. split.
  - rewrite OrphanFacts.foldl_comment_at.
    rewrite OrphanFacts.rewrite_block_stays_open by (done || lia).
    do 2 f_equal.
    pose proof (OrphanFacts.depth_positive 1 blk ltac:(lia) Ho) as Hd.
    destruct Htail as [->|(l & tl & -> & Hneg)]; [done|].
    by apply OrphanFacts.rewrite_block_negative.
  - intros _ Hc. rewrite length_app.
    by apply AblyFacts.scan_properties_truncated.
Qed.

Lemma C2_unclosed_block_witness :
  foldl FixAllSocketOrphans.comment_at
    ([lit "// io.to(room).emit('update', {"] ++ [lit "  foo: 1,"] ++ [])
    (FixAllSocketOrphans.sc_properties_to_comment
       (FixAllSocketOrphans.scan ([lit "  foo: 1,"] ++ []) 1 1 []))
  = [lit "// io.to(room).emit('update', {"]
    ++ map comment_if_code [lit "  foo: 1,"] ++ []
  /\ (@nil str = [] -> Forall (fun l => commented l = true) [lit "  foo: 1,"] ->
      MigrateToAbly.ps_k
        (MigrateToAbly.scan_properties [lit "  foo: 1,"] 1 1 [])
      = length ([lit "// io.to(room).emit('update', {"] ++ [lit "  foo: 1,"])).
Proof.
  apply (C2_unclosed_block_is_rewritten
           [lit "// io.to(room).emit('update', {"] [lit "  foo: 1,"] []).
  - intros n Hn. destruct n as [|n]; [vm_compute; reflexivity|].
    simpl in Hn. lia.
  - left. reflexivity.
Defined.

(** C2 as stated fails: in a file that ends before the brace of the
    block is closed the depth stays at 1, and the orphan fixer comments
    the property line all the same; the Ably migration replaces such a
    block by the generated code. *)
Lemma C2_truncated_block_counterexample :
  depth 1 [lit "  foo: 1,"] = 1%Z
  /\ FixAllSocketOrphans.fix_file truncated_doc = Some truncated_doc_fixed
  /\ truncated_doc_fixed <> truncated_doc
  /\ MigrateToAbly.migrate_socket_to_ably truncated_todo_doc
     = Some truncated_todo_migrated.
Proof.
  repeat split; try (vm_compute; reflexivity). vm_compute. discriminate.
Qed.

(** C3.  On the marker line [// io.to('room:42').emit('update', {] with
    the payload lines [// foo: bar,] and [// });] the parser of
    [migrate_todos.py] gives the channel ['room:42'], the event
    [update] and the one fragment [foo: bar,].  The parser of
    [migrate_to_ably.py] gives nothing on the same marker line: its
    first pattern wants [.emit] right after the character that closes
    the channel, and the template pattern wants backticks, so the block
    is never found. *)
Theorem C3_field_parser_on_sample :
  MigrateTodos.extract_channel_and_event field_block
  = Some (lit "'room:42'", lit "update")
  /\ MigrateTodos.extract_payload field_block = [lit "foo: bar,"]
  /\ MigrateToAbly.match_call (strip field_marker) = None
  /\ MigrateToAbly.find_call field_block 0 1 = None.
Proof. repeat split; vm_compute; reflexivity. Qed.

Lemma comment_depth_cons (bc : Z) (l : str) (ls : list str) :
  comment_depth bc (l :: ls)
  = if commented l then comment_depth (new_depth bc l) ls
    else comment_depth bc ls.
Proof. unfold comment_depth. cbn [List.filter]. by destruct (commented l). Qed.

(** The property loop leaves on the first comment line that brings the
    depth, counted over the comment lines, to zero. *)
Lemma scan_properties_closes_on_comment
    (t : nat) (rest : list str) (k : nat) (bc : Z) (props : list (str * str))
    (l : str) :
  (0 < bc)%Z -> rest !! t = Some l -> commented l = true ->
  (forall u, u < t -> (0 < comment_depth bc (take (S u) rest))%Z) ->
  comment_depth bc (take (S t) rest) = 0%Z ->
  let st := MigrateToAbly.scan_properties rest k bc props in
  MigrateToAbly.ps_k st = k + t /\ MigrateToAbly.ps_brace_count st = 0%Z.
Proof.
  revert rest k bc props.
  induction t as [|t IH]; intros rest k bc props Hbc Hl Hc Hopen Hzero;
    destruct rest as [|l0 rest]; try done; cbv zeta;
    rewrite AblyFacts.scan_properties_cons;
    (assert (negb (0 <? bc)%Z = false) as -> by (apply negb_false_iff; lia)).
  - injection Hl as ->. rewrite Hc. cbn [negb]. cbv zeta.
    change (take 1 (l :: rest)) with [l] in Hzero.
    rewrite comment_depth_cons, Hc in Hzero.
    change (comment_depth (new_depth bc l) []) with (new_depth bc l) in Hzero.
    rewrite Hzero. cbn. split; [lia | done].
  - cbn [lookup] in Hl.
    assert (forall n, comment_depth bc (take (S (S n)) (l0 :: rest))
                      = if commented l0
                        then comment_depth (new_depth bc l0) (take (S n) rest)
                        else comment_depth bc (take (S n) rest)) as Hs
      by (intros n; apply comment_depth_cons).
    destruct (commented l0) eqn:Hc0; cbn [negb].
    + pose proof (Hopen 0 ltac:(lia)) as H0.
      change (take 1 (l0 :: rest)) with [l0] in H0.
      rewrite comment_depth_cons, Hc0 in H0.
      change (comment_depth (new_depth bc l0) []) with (new_depth bc l0) in H0.
      cbv zeta.
      assert ((new_depth bc l0 =? 0)%Z = false) as -> by lia.
      edestruct (IH rest (S k) (new_depth bc l0)) as [H1 H2]; try done.
      * intros u Hu. rewrite <- Hs. apply Hopen. lia.
      * by rewrite <- Hs.
      * split; [rewrite H1; lia | apply H2].
    + edestruct (IH rest (S k) bc) as [H1 H2]; try done.
      * intros u Hu. rewrite <- Hs. apply Hopen. lia.
      * by rewrite <- Hs.
      * split; [rewrite H1; lia | apply H2].
Qed.

(** C4 (amended).  When the depth, counted from 1 with the open braces
    of every line added and its close braces subtracted, is positive
    after each of the first [t] lines under the marker and zero after
    the next, the scan of the orphan fixer leaves its loop on that
    line, index [j + t], with depth zero, and that line is among the
    lines to comment unless it is a comment already.  The property scan
    of the Ably migration counts the braces of the comment lines only
    and passes over every other line: it leaves on the first comment
    line that brings the depth so counted to zero, and [lines[i:k+1]]
    then takes that line in. *)
Theorem C4_span_closes_at_first_zero_depth
    (rest : list str) (j t : nat) (l : str) :
  rest !! t = Some l ->
  ((forall u, u < t -> (0 < depth 1 (take (S u) rest))%Z) ->
   depth 1 (take (S t) rest) = 0%Z ->
   let st := FixAllSocketOrphans.scan rest j 1 [] in
   FixAllSocketOrphans.sc_j st = j + t
   /\ FixAllSocketOrphans.sc_brace_count st = 0%Z
   /\ (commented l = false ->
       In (j + t) (FixAllSocketOrphans.sc_properties_to_comment st)))
  /\ (commented l = true ->
      (forall u, u < t -> (0 < comment_depth 1 (take (S u) rest))%Z) ->
      comment_depth 1 (take (S t) rest) = 0%Z ->
      let st := MigrateToAbly.scan_properties rest j 1 [] in
      MigrateToAbly.ps_k st = j + t /\ MigrateToAbly.ps_brace_count st = 0%Z).
Proof.
  intros Hl. split.
  - intros Hopen Hzero. by apply OrphanFacts.scan_closes.
  - intros Hc Hopen Hzero.
    by apply (scan_properties_closes_on_comment t rest j 1 [] l).
Qed.

Lemma C4_span_closes_witness :
  (let st := FixAllSocketOrphans.scan mixed_block 2 1 [] in
   FixAllSocketOrphans.sc_j st = 2 + 4
   /\ FixAllSocketOrphans.sc_brace_count st = 0%Z
   /\ (commented (lit "// });") = false ->
       In (2 + 4) (FixAllSocketOrphans.sc_properties_to_comment st)))
  /\ (let st := MigrateToAbly.scan_properties mixed_block 2 1 [] in
      MigrateToAbly.ps_k st = 2 + 4 /\ MigrateToAbly.ps_brace_count st = 0%Z).
Proof.
  destruct (C4_span_closes_at_first_zero_depth mixed_block 2 4 (lit "// });")
              eq_refl) as [Ho Ha].
  split.
  - apply Ho.
    + intros u Hu.
      destruct u as [|[|[|[|u]]]]; [vm_compute; reflexivity..|lia].
    + vm_compute; reflexivity.
  - apply Ha.
    + vm_compute; reflexivity.
    + intros u Hu.
      destruct u as [|[|[|[|u]]]]; [vm_compute; reflexivity..|lia].
    + vm_compute; reflexivity.
Defined.

(** C4 as stated fails on the Ably migration.  Under a commented
    property the closing line [});] is not a comment: the depth counted
    over all lines is 1 after the first line and 0 after the second,
    and the scan of the orphan fixer leaves on that second line (index
    3); but the property scan passes over it and over the lines after
    it without counting, and runs to the end of the lines (index 6)
    with the depth still 1. *)
Lemma C4_uncommented_closing_line_counterexample :
  open_close_block !! 1 = Some (lit "});")
  /\ (0 < depth 1 (take 1 open_close_block))%Z
  /\ depth 1 (take 2 open_close_block) = 0%Z
  /\ FixAllSocketOrphans.sc_j (FixAllSocketOrphans.scan open_close_block 2 1 [])
     = 2 + 1
  /\ MigrateToAbly.ps_k (MigrateToAbly.scan_properties open_close_block 2 1 [])
     = 6
  /\ MigrateToAbly.ps_brace_count
       (MigrateToAbly.scan_properties open_close_block 2 1 []) = 1%Z.
Proof. repeat split; vm_compute; reflexivity. Qed.

(** C5.  The TODO migration copies the channel expression as it stands,
    backticks and all, into the call it writes.  The Ably migration
    does not: it puts the channel text it has matched, which is the
    text between the delimiters, between single quotes.  On a
    template-literal channel [`user:${userId}`] comes out as
    ['user:${userId}']. *)
Theorem C5_ably_requotes_template_channel :
  (forall indent_str channel event payload_lines,
     MigrateTodos.replacement_lines indent_str channel event payload_lines !! 1
     = Some (indent_str ++ lit "  await publishToChannel(" ++ channel
             ++ lit ", '" ++ event ++ lit "', {" ++ [nl]))
  /\ (forall indent_str channel event properties,
        MigrateToAbly.build_replacement indent_str channel event properties !! 2
        = Some (indent_str ++ lit "  await publishToChannel('" ++ channel
                ++ lit "', '" ++ event ++ lit "', {"))
  /\ MigrateTodos.extract_channel_and_event
       [lit "  // io.to(`user:${userId}`).emit('notify', {"]
     = Some (lit "`user:${userId}`", lit "notify")
  /\ MigrateToAbly.match_call
       (strip (lit "  // io.to(`user:${userId}`).emit('notify', {"))
     = Some (lit "user:${userId}", lit "notify")
  /\ MigrateToAbly.migrate_socket_to_ably template_doc = Some template_ably
  /\ split_nl template_ably !! 2
     = Some (lit "    await publishToChannel('user:${userId}', 'notify', {")
  /\ str_in (lit "`user:${userId}`") template_ably = false
  /\ (MigrateTodos.migrate_file template_doc).1 = Some template_todos
  /\ split_nl template_todos !! 1
     = Some (lit "    await publishToChannel(`user:${userId}`, 'notify', {").
Proof.
  split; [done|]. split; [done|].
  repeat split; vm_compute; reflexivity.
Qed.

Lemma lookup_tail_lines {A} (l1 m l2 : list A) (a k n : nat) :
  length l1 = a -> n = length m + (a + k) ->
  (l1 ++ m ++ l2) !! n = l2 !! k.
Proof.
  intros <- ->. rewrite lookup_app_r by lia. rewrite lookup_app_r by lia.
  f_equal. lia.
Qed.

(** C6 (amended).  In the code the TODO migration writes, the line of
    the catch branch is a [logger.error] call whose message holds the
    event name and which passes [ablyError.message].  In the code the
    Ably migration writes, that line is the same [console.error] call
    for every event: it passes [ablyError.message] and does not name
    the event. *)
Theorem C6_log_call_of_catch_branch (indent_str channel event : str) :
  (forall payload_lines,
     let line := indent_str ++ lit "  logger.error('Failed to publish " ++ event
                 ++ lit " to Ably:', ablyError.message);" ++ [nl] in
     MigrateTodos.replacement_lines indent_str channel event payload_lines
       !! (length payload_lines + 4) = Some line
     /\ str_in event line = true
     /\ str_in (lit "ablyError.message") line = true)
  /\ (forall properties,
        let line :=
          indent_str
          ++ lit "  console.error('Failed to publish to Ably:', ablyError.message);"
        in
        MigrateToAbly.build_replacement indent_str channel event properties
          !! (length properties + 5) = Some line
        /\ str_in (lit "ablyError.message") line = true).
Proof.
  split.
  - intros payload_lines line. subst line. split; [|split].
    + unfold MigrateTodos.replacement_lines.
      by rewrite (lookup_tail_lines _ _ _ 2 2 (length payload_lines + 4))
        by (rewrite ?length_map; done || lia).
    + rewrite (app_assoc indent_str). apply str_in_app.
    + change (lit " to Ably:', ablyError.message);")
        with (lit " to Ably:', " ++ lit "ablyError.message" ++ lit ");").
      apply str_in_iff.
      exists (indent_str ++ lit "  logger.error('Failed to publish " ++ event
              ++ lit " to Ably:', "), (lit ");" ++ [nl]).
      by rewrite <- !app_assoc.
  - intros properties line. subst line. split.
    + unfold MigrateToAbly.build_replacement.
      by rewrite (lookup_tail_lines _ _ _ 3 2 (length properties + 5))
        by (rewrite ?length_map; done || lia).
    + change (lit "  console.error('Failed to publish to Ably:', ablyError.message);")
        with (lit "  console.error('Failed to publish to Ably:', "
                ++ lit "ablyError.message" ++ lit ");").
      rewrite app_assoc. apply str_in_app.
Qed.

(** C6 as stated fails on the Ably migration: for the event [notify]
    the line of the catch branch does not hold the event name. *)
Lemma C6_ably_log_omits_event_counterexample :
  MigrateToAbly.migrate_socket_to_ably template_doc = Some template_ably
  /\ exists line,
       split_nl template_ably !! 6 = Some line
       /\ line
          = lit "    console.error('Failed to publish to Ably:', ablyError.message);"
       /\ str_in (lit "notify") line = false.
Proof.
  split; [vm_compute; reflexivity|]. eexists.
  split; [vm_compute; reflexivity|]. split; vm_compute; reflexivity.
Qed.

(** C7 (amended).  When the inner loop of the first comment fixer comes
    to an empty line, a comment or a line that starts with [res.],
    [await], [const], [let] or [var], it stops: that line and every
    line after it are kept as they are.  The lines it went past on its
    way have been rewritten already: each of them that holds a colon,
    is a lone closing brace or ends with a comma is commented. *)
Theorem C7_scan_stops_at_new_statement
    (pre : list str) (stop : str) (post : list str) (modified : bool) :
  Forall (fun l => eqb (strip l) (lit "});") = false
                   /\ FixSocketComments.stops (strip l) = false) pre ->
  FixSocketComments.stops (strip stop) = true ->
  FixSocketComments.comment_orphans (pre ++ stop :: post) modified
  = (map comment_if_property pre ++ stop :: post,
     modified
     || existsb (fun l => FixSocketComments.is_property (strip l)) pre).
Proof.
  intros Hpre Hstop. revert modified.
  induction Hpre as [|l pre [H1 H2] _ IH]; intros modified.
  - cbn [app map existsb FixSocketComments.comment_orphans].
    rewrite (CommentFacts.stops_not_closing _ Hstop), Hstop.
    by rewrite orb_false_r.
  - cbn [app map existsb FixSocketComments.comment_orphans]. rewrite H1, H2.
    unfold comment_if_property.
    destruct (FixSocketComments.is_property (strip l)); rewrite IH; cbn.
    + by rewrite orb_true_r.
    + done.
Qed.

Lemma C7_scan_stops_witness :
  FixSocketComments.comment_orphans
    ([lit "    id: 1," ++ [nl]] ++ [nl] :: [lit "  res.json({ ok: true });"])
    false
  = (map comment_if_property [lit "    id: 1," ++ [nl]]
       ++ [nl] :: [lit "  res.json({ ok: true });"],
     false
     || existsb (fun l => FixSocketComments.is_property (strip l))
          [lit "    id: 1," ++ [nl]]).
Proof.
  apply (C7_scan_stops_at_new_statement
           [lit "    id: 1," ++ [nl]] [nl] [lit "  res.json({ ok: true });"]).
  - constructor; [split; vm_compute; reflexivity | constructor].
  - vm_compute; reflexivity.
Defined.

(** C7 as stated fails: the property line read before the empty line
    has been commented when the loop stops, and the file is written. *)
Lemma C7_lines_before_stop_counterexample :
  FixSocketComments.fix_file stopped_doc = Some stopped_doc_fixed
  /\ readlines stopped_doc !! 1 = Some (lit "    id: 1," ++ [nl])
  /\ readlines stopped_doc_fixed !! 1 = Some (lit "    // id: 1," ++ [nl]).
Proof. repeat split; vm_compute; reflexivity. Qed.

(** C8.  In a file without a require statement that opens with a block
    comment whose inner lines do not start with a star, the import is
    put after the first line of the comment, inside it, and not after
    the comment; in a file of comments only it is put first, before the
    comments. *)
Theorem C8_import_lands_inside_block_comment :
  MigrateToAbly.add_ably_import (lit "routes/goals.js") block_comment_doc
  = Some block_comment_imported
  /\ MigrateToAbly.add_ably_import (lit "routes/goals.js") comments_only_doc
     = Some comments_only_imported.
Proof. split; vm_compute; reflexivity. Qed.

(** C9 (amended).  With [n] the indentation of the line the indentation
    is taken from (the commented call line in the Ably migration, the
    TODO line in the TODO migration), the first generated line is
    indented by [n]; the [try], [catch] and closing-brace lines by [n];
    the lines of their bodies (the publish call, its closing line and
    the logging call) by [n + 2]; and every payload fragment, which
    stands inside the object literal of the call, by [n + 4]. *)
Theorem C9_indentation_of_generated_lines
    (line channel event : str) (rest block_lines : list str) (k : nat) :
  let n := indent_of line in
  (let properties :=
     MigrateToAbly.ps_properties (MigrateToAbly.scan_properties rest k 1 []) in
   map indent_of
     (MigrateToAbly.build_replacement (spaces n) channel event properties)
   = [n; n; n + 2] ++ map (fun _ => n + 4) properties ++ [n + 2; n; n + 2; n])
  /\ (let payload_lines := MigrateTodos.extract_payload block_lines in
      map indent_of
        (MigrateTodos.replacement_lines (spaces n) channel event payload_lines)
      = [n; n + 2] ++ map (fun _ => n + 4) payload_lines
        ++ [n + 2; n; n + 2; n]).
Proof.
  cbv zeta. split.
  - apply AblyFacts.build_replacement_indents.
    apply AblyFacts.scan_properties_fragments. constructor.
  - apply TodosFacts.replacement_lines_indents.
    apply TodosFacts.extract_payload_fragments.
Qed.

(** C9 as stated fails on the payload lines: under a call line indented
    by 2 the fragment is written at 6, two levels in, not at 4. *)
Lemma C9_payload_line_counterexample :
  let marker := lit "  // io.to(`user:${userId}`).emit('notify', {" in
  let replacement :=
    MigrateToAbly.build_replacement (spaces (indent_of marker))
      (lit "user:${userId}") (lit "notify")
      (MigrateToAbly.ps_properties
         (MigrateToAbly.scan_properties
            [lit "  //   id: 1,"; lit "  // });"] 2 1 [])) in
  indent_of marker = 2
  /\ map indent_of replacement = [2; 2; 4; 6; 4; 2; 4; 2]
  /\ exists fragment_line,
       replacement !! 3 = Some fragment_line
       /\ fragment_line = lit "      id: 1,"
       /\ indent_of fragment_line <> indent_of marker + 2.
Proof.
  cbv zeta. split; [vm_compute; reflexivity|].
  split; [vm_compute; reflexivity|]. eexists.
  split; [vm_compute; reflexivity|]. split; [vm_compute; reflexivity|].
  vm_compute. discriminate.
Qed.

(** C10.  In the property scan of the Ably migration a line that does
    not start with [//] is passed over: the scan goes on from the next
    line with the same depth and the same fragments.  Wherever such a
    line stands, the depth and the fragments at the end of the scan are
    those of the scan without it.  And when it stands in a block, after
    commented lines that keep the depth positive, the document after
    the block has been replaced is the one obtained without the line:
    the line is gone from the output. *)
Theorem C10_uncommented_line_is_dropped (u : str) :
  commented u = false ->
  (forall post k bc properties, (0 < bc)%Z ->
     MigrateToAbly.scan_properties (u :: post) k bc properties
     = MigrateToAbly.scan_properties post (S k) bc properties)
  /\ (forall pre post k bc properties,
        let a := MigrateToAbly.scan_properties (pre ++ u :: post) k bc
                   properties in
        let b := MigrateToAbly.scan_properties (pre ++ post) k bc properties in
        MigrateToAbly.ps_properties a = MigrateToAbly.ps_properties b
        /\ MigrateToAbly.ps_brace_count a = MigrateToAbly.ps_brace_count b)
  /\ (forall head pre post i fc,
        i <= MigrateToAbly.fc_j fc ->
        length head = S (MigrateToAbly.fc_j fc) ->
        Forall (fun l => commented l = true) pre -> stays_open 1 pre ->
        spliced (head ++ pre ++ u :: post) i fc
        = spliced (head ++ pre ++ post) i fc).
Proof.
  intros Hu. split; [|split].
  - intros post k bc properties Hbc.
    rewrite AblyFacts.scan_properties_cons, Hu.
    by assert (negb (0 <? bc)%Z = false) as ->
      by (apply negb_false_iff; lia).
  - intros pre post k bc properties. cbv zeta.
    pose proof (AblyFacts.scan_properties_skip pre u post k bc properties Hu)
      as (H1 & H2 & _).
    done.
  - intros head pre post i fc Hi Hh Hc Ho.
    by apply AblyFacts.spliced_skip.
Qed.

Lemma C10_uncommented_line_witness :
  commented (lit "  audit(id);") = false
  /\ (forall post k bc properties, (0 < bc)%Z ->
        MigrateToAbly.scan_properties (lit "  audit(id);" :: post) k bc
          properties
        = MigrateToAbly.scan_properties post (S k) bc properties)
  /\ (forall pre post k bc properties,
        let a := MigrateToAbly.scan_properties
                   (pre ++ lit "  audit(id);" :: post) k bc properties in
        let b := MigrateToAbly.scan_properties (pre ++ post) k bc properties in
        MigrateToAbly.ps_properties a = MigrateToAbly.ps_properties b
        /\ MigrateToAbly.ps_brace_count a = MigrateToAbly.ps_brace_count b)
  /\ (forall head pre post i fc,
        i <= MigrateToAbly.fc_j fc ->
        length head = S (MigrateToAbly.fc_j fc) ->
        Forall (fun l => commented l = true) pre -> stays_open 1 pre ->
        spliced (head ++ pre ++ lit "  audit(id);" :: post) i fc
        = spliced (head ++ pre ++ post) i fc).
Proof.
  split; [vm_compute; reflexivity|].
  apply (C10_uncommented_line_is_dropped (lit "  audit(id);")).
  vm_compute; reflexivity.
Defined.

(** ** The claims on whole files *)

(** The line [audit(id);] inside the TODO block is not in the file the
    Ably migration writes. *)
Example stray_line_is_gone :
  MigrateToAbly.migrate_socket_to_ably stray_doc = Some stray_migrated
  /\ str_in (lit "audit") stray_migrated = false.
Proof. split; vm_compute; reflexivity. Qed.

(** Blocks nested 1, 2 and 5 deep: both scans leave on the line that
    closes the call. *)
Example span_of_nested_blocks :
  FixAllSocketOrphans.sc_j (FixAllSocketOrphans.scan (nested 1) 1 1 []) = 2
  /\ FixAllSocketOrphans.sc_j (FixAllSocketOrphans.scan (nested 2) 1 1 []) = 4
  /\ FixAllSocketOrphans.sc_j (FixAllSocketOrphans.scan (nested 5) 1 1 []) = 10
  /\ nested 5 !! 9 = Some (lit "});")
  /\ MigrateToAbly.ps_k
       (MigrateToAbly.scan_properties (commented_nested 1) 1 1 []) = 2
  /\ MigrateToAbly.ps_k
       (MigrateToAbly.scan_properties (commented_nested 2) 1 1 []) = 4
  /\ MigrateToAbly.ps_k
       (MigrateToAbly.scan_properties (commented_nested 5) 1 1 []) = 10.
Proof. repeat split; vm_compute; reflexivity. Qed.

(** With a require statement in the file, the import is put right after
    the last one, and a second run adds nothing. *)
Example import_after_last_require :
  MigrateToAbly.add_ably_import (lit "utils/goals.js") requires_doc
  = Some requires_imported
  /\ MigrateToAbly.add_ably_import (lit "utils/goals.js") requires_imported
     = None.
Proof. split; vm_compute; reflexivity. Qed.

(** * Further properties of the scripts *)

Import MoreNotions.

(** ** Inserting the import *)

Lemma last_require_bound (rest : list str) (i : nat) (last : Z) :
  (-1 <= last < Z.of_nat i)%Z ->
  (-1 <= MigrateToAbly.last_require rest i last < Z.of_nat (i + length rest))%Z.
Proof.
  revert i last. induction rest as [|l rest IH]; intros i last H.
  - cbn. lia.
  - cbn [MigrateToAbly.last_require length].
    destruct (_ && _).
    + specialize (IH (S i) (Z.of_nat i) ltac:(lia)). lia.
    + specialize (IH (S i) last ltac:(lia)). lia.
Qed.

Lemma first_code_bound (rest : list str) (i : nat) (last : Z) :
  (-1 <= last < Z.of_nat i)%Z \/ last = (-1)%Z ->
  (-1 <= MigrateToAbly.first_code rest i last < Z.of_nat (i + length rest))%Z
  \/ MigrateToAbly.first_code rest i last = (-1)%Z.
Proof.
  revert i. induction rest as [|l rest IH]; intros i H.
  - cbn. destruct H; [left; lia | by right].
  - cbn [MigrateToAbly.first_code length]. destruct (_ && _).
    + left. lia.
    + destruct (IH (S i)) as [H'|H']; [destruct H; [left; lia | by right] | |].
      * left. lia.
      * by right.
Qed.

Lemma not_In_by_existsb (c : ascii) (s : str) :
  existsb (Ascii.eqb c) s = false -> ~ In c s.
Proof.
  intros H Hin. assert (existsb (Ascii.eqb c) s = true) as H'; [|congruence].
  apply existsb_exists. exists c. split; [done | apply Ascii.eqb_refl].
Qed.

Lemma import_line_no_nl (filepath : str) :
  ~ In nl (MigrateToAbly.import_line filepath).
Proof.
  unfold MigrateToAbly.import_line.
  destruct (startswith filepath _); by apply not_In_by_existsb.
Qed.

(** X1.  When [add_ably_import] writes the file, the new text is the old
    one with the import line put in as one new line: the lines before
    it and after it are the lines of the old text, in their order. *)
Theorem add_ably_import_inserts_one_line (filepath content out : str) :
  MigrateToAbly.add_ably_import filepath content = Some out ->
  exists n,
    n <= length (split_nl content)
    /\ split_nl out
       = take n (split_nl content)
         ++ MigrateToAbly.import_line filepath :: drop n (split_nl content).
Proof.
  unfold MigrateToAbly.add_ably_import. destruct (orb _ _); [done|].
  cbv zeta. intros [= <-].
  set (lines := split_nl content).
  set (idx := if (MigrateToAbly.last_require lines 0 (-1) =? -1)%Z
              then MigrateToAbly.first_code lines 0
                     (MigrateToAbly.last_require lines 0 (-1))
              else MigrateToAbly.last_require lines 0 (-1)).
  exists (Z.to_nat (idx + 1)). split.
  - pose proof (last_require_bound lines 0 (-1) ltac:(lia)) as Hl.
    subst idx. destruct (_ =? _)%Z eqn:E.
    + apply Z.eqb_eq in E. rewrite E.
      destruct (first_code_bound lines 0 (-1) ltac:(by right)) as [H|H];
        cbn in H; lia.
    + cbn in Hl. lia.
  - unfold list_insert_at. apply split_join_nl; [by destruct (take _ lines)|].
    pose proof (split_nl_no_nl content) as Hnl. fold lines in Hnl.
    apply Forall_app. split; [by apply Forall_take|].
    constructor; [apply import_line_no_nl | by apply Forall_drop].
Qed.

Lemma add_ably_import_inserts_one_line_witness :
  exists n,
    n <= length (split_nl Samples.requires_doc)
    /\ split_nl Samples.requires_imported
       = take n (split_nl Samples.requires_doc)
         ++ MigrateToAbly.import_line (lit "utils/goals.js")
            :: drop n (split_nl Samples.requires_doc).
Proof.
  apply (add_ably_import_inserts_one_line (lit "utils/goals.js")
           Samples.requires_doc Samples.requires_imported).
  vm_compute; reflexivity.
Defined.

(** X2.  In a file that does not name the adapter and has a require
    statement (a line with [require(] that is not a [//] comment), the
    import is put on the line right after the last such statement. *)
Theorem add_ably_import_after_last_require
    (filepath content : str) (pre : list str) (r : str) (post : list str) :
  references_adapter content = false ->
  split_nl content = pre ++ r :: post ->
  is_require r = true -> Forall (fun l => is_require l = false) post ->
  MigrateToAbly.add_ably_import filepath content
  = Some (join_nl (pre ++ r :: MigrateToAbly.import_line filepath :: post)).
Proof.
  intros Hg Hs Hr Hpost. unfold MigrateToAbly.add_ably_import.
  fold (references_adapter content). rewrite Hg, Hs. cbv zeta.
  rewrite ImportFacts.last_require_last by done. cbn [Nat.add].
  assert ((Z.of_nat (length pre) =? -1)%Z = false) as ->
    by (apply Z.eqb_neq; lia).
  replace (Z.to_nat (Z.of_nat (length pre) + 1)) with (S (length pre)) by lia.
  unfold list_insert_at. do 2 f_equal.
  rewrite (cons_middle r pre post), app_assoc.
  replace (S (length pre)) with (length (pre ++ [r]))
    by (rewrite length_app; cbn; lia).
  rewrite take_app_length, drop_app_length, <- app_assoc. done.
Qed.

Lemma add_ably_import_after_last_require_witness :
  MigrateToAbly.add_ably_import (lit "utils/goals.js") Samples.requires_doc
  = Some (join_nl
            ([lit "// goals"; lit "const express = require('express');"]
             ++ lit "const db = require('../db');"
             :: MigrateToAbly.import_line (lit "utils/goals.js")
             :: [lit "// const io = require('socket.io');";
                 lit "const router = express.Router();"])).
Proof.
  apply (add_ably_import_after_last_require (lit "utils/goals.js")
           Samples.requires_doc
           [lit "// goals"; lit "const express = require('express');"]
           (lit "const db = require('../db');")
           [lit "// const io = require('socket.io');";
            lit "const router = express.Router();"]).
  - vm_compute; reflexivity.
  - vm_compute; reflexivity.
  - vm_compute; reflexivity.
  - repeat constructor.
Defined.

(** X3.  In a file that does not name the adapter and has no require
    statement, the import is put right before the first line that is
    not blank and does not start with [//], [/*] or [*]; the blank and
    comment lines before that line stay above it. *)
Theorem add_ably_import_before_first_code
    (filepath content : str) (pre : list str) (c : str) (post : list str) :
  references_adapter content = false ->
  split_nl content = pre ++ c :: post ->
  Forall (fun l => is_require l = false) (pre ++ c :: post) ->
  Forall (fun l => is_code l = false) pre -> is_code c = true ->
  MigrateToAbly.add_ably_import filepath content
  = Some (join_nl (pre ++ MigrateToAbly.import_line filepath :: c :: post)).
Proof.
  intros Hg Hs Hreq Hpre Hc. unfold MigrateToAbly.add_ably_import.
  fold (references_adapter content). rewrite Hg, Hs. cbv zeta.
  rewrite ImportFacts.last_require_none by done. cbn [Z.eqb Pos.eqb].
  rewrite ImportFacts.first_code_first by done. cbn [Nat.add].
  replace (Z.to_nat (Z.of_nat (length pre) - 1 + 1)) with (length pre) by lia.
  unfold list_insert_at. by rewrite take_app_length, drop_app_length.
Qed.

Lemma add_ably_import_before_first_code_witness :
  MigrateToAbly.add_ably_import (lit "routes/goals.js")
    (lit "// goals
/* routes */

module.exports = {};")
  = Some (join_nl
            ([lit "// goals"; lit "/* routes */"; []]
             ++ MigrateToAbly.import_line (lit "routes/goals.js")
             :: lit "module.exports = {};" :: [])).
Proof.
  apply (add_ably_import_before_first_code (lit "routes/goals.js") _
           [lit "// goals"; lit "/* routes */"; []]
           (lit "module.exports = {};") []).
  - vm_compute; reflexivity.
  - vm_compute; reflexivity.
  - repeat constructor.
  - repeat constructor.
  - vm_compute; reflexivity.
Defined.

(** X4.  A file that [add_ably_import] has written is left alone by a
    second call: the import is never put in twice. *)
Theorem add_ably_import_never_twice (filepath content out : str) :
  MigrateToAbly.add_ably_import filepath content = Some out ->
  MigrateToAbly.add_ably_import filepath out = None.
Proof.
  unfold MigrateToAbly.add_ably_import. destruct (orb _ _); [done|]. cbv zeta.
  intros [= <-].
  rewrite (str_in_join_nl (lit "ably-adapter")
             (MigrateToAbly.import_line filepath)); [done| |].
  - unfold list_insert_at. apply in_or_app. right. by left.
  - apply ImportFacts.import_line_names_adapter.
Qed.

Lemma add_ably_import_never_twice_witness :
  MigrateToAbly.add_ably_import (lit "utils/goals.js") Samples.requires_imported
  = None.
Proof.
  apply (add_ably_import_never_twice (lit "utils/goals.js")
           Samples.requires_doc Samples.requires_imported).
  vm_compute; reflexivity.
Defined.

(** ** The orphan fixer only comments lines out *)

Lemma commented_out_refl (l : str) : commented_out l l.
Proof. by left. Qed.

Lemma commented_out_trans (a b c : str) :
  commented_out a b -> commented_out b c -> commented_out a c.
Proof.
  intros [->|(Ha & Ha' & ->)] [->|(Hb & Hb' & ->)];
    try (by left); try (by right).
  pose proof (OrphanFacts.commented_comment_line a) as H.
  unfold FixAllSocketOrphans.comment_line in H. congruence.
Qed.

Lemma Forall2_commented_out_refl (ls : list str) : Forall2 commented_out ls ls.
Proof. induction ls; constructor; auto using commented_out_refl. Qed.

Lemma Forall2_commented_out_trans (a b c : list str) :
  Forall2 commented_out a b -> Forall2 commented_out b c ->
  Forall2 commented_out a c.
Proof.
  intros H. revert c. induction H; intros c Hc; inversion Hc; subst;
    constructor; eauto using commented_out_trans.
Qed.

Lemma selected_not_commented (bc : Z) (l : str) :
  selected bc l = true -> commented l = false.
Proof.
  unfold selected. destruct (bc =? 0)%Z, (commented l); cbn; done.
Qed.

Lemma selected_nonblank (bc : Z) (l : str) :
  selected bc l = true -> nonempty (strip l) = true.
Proof.
  unfold selected. destruct (bc =? 0)%Z.
  - intros H. apply andb_true_iff in H as [_ H].
    rewrite <- (count_strip l "}") in H by done.
    by destruct (strip l).
  - intros H. apply andb_true_iff in H as [H _].
    by apply andb_true_iff in H as [_ H].
Qed.

Lemma rewrite_block_commented_out (rest : list str) (bc : Z) :
  Forall2 commented_out rest (rewrite_block rest bc).
Proof.
  revert bc; induction rest as [|l rest IH]; intros bc; simpl; [constructor|].
  destruct (negb (0 <? bc)%Z); [apply Forall2_commented_out_refl|].
  constructor.
  - destruct (selected _ l) eqn:E; [right|by left].
    split; [by eapply selected_not_commented|].
    split; [by eapply selected_nonblank | done].
  - destruct (new_depth bc l =? 0)%Z; auto using Forall2_commented_out_refl.
Qed.

Lemma orphans_fix_loop_commented_out
    (fuel : nat) (lines : list str) (i : nat) (m : bool) :
  Forall2 commented_out lines (FixAllSocketOrphans.fix_loop fuel lines i m).1.
Proof.
  revert lines i m. induction fuel as [|fuel IH]; intros lines i m;
    cbn [FixAllSocketOrphans.fix_loop]; [apply Forall2_commented_out_refl|].
  destruct (lines !! i) as [line|] eqn:Hi; [|apply Forall2_commented_out_refl].
  pose proof (lookup_lt_Some _ _ _ Hi) as Hlt.
  destruct (FixAllSocketOrphans.is_marker line); [|apply IH].
  cbv zeta. rewrite OrphanFacts.loop_body_lines by done.
  eapply Forall2_commented_out_trans; [|apply IH].
  rewrite <- (take_drop (S i) lines) at 1. apply Forall2_app.
  - apply Forall2_commented_out_refl.
  - apply rewrite_block_commented_out.
Qed.

Lemma commented_out_no_nl (a b : list str) :
  Forall2 commented_out a b ->
  Forall (fun l => ~ In nl l) a -> Forall (fun l => ~ In nl l) b.
Proof.
  induction 1 as [|l l' a b Hl _ IH]; intros Ha; [done|].
  inversion Ha; subst. constructor; [|auto].
  destruct Hl as [->|(_ & _ & ->)]; [done|].
  intros Hin. by apply (OrphanFacts.In_comment_line l) in Hin.
Qed.

(** X5.  The text the orphan fixer writes has the lines of the text it
    read, one for one and in the same order: each line is either as it
    was, or it was not a comment and is now the same line commented out
    (its indentation in spaces, [// ], then the line without its
    leading blanks).  No line is removed, added, moved or otherwise
    edited. *)
Theorem orphan_fix_only_comments_out (content out : str) :
  FixAllSocketOrphans.fix_file content = Some out ->
  Forall2 commented_out (split_nl content) (split_nl out).
Proof.
  unfold FixAllSocketOrphans.fix_file. intros H.
  pose proof (orphans_fix_loop_commented_out (length (split_nl content))
                (split_nl content) 0 false) as Hco.
  destruct (FixAllSocketOrphans.fix_loop (length (split_nl content))
              (split_nl content) 0 false) as [lines' m].
  destruct m; [|done]. injection H as <-. cbn [fst] in Hco.
  rewrite split_join_nl; [done| |].
  - intros ->. apply Forall2_nil_inv_r in Hco.
    by apply (split_nl_nonempty content).
  - eapply commented_out_no_nl; [done | apply split_nl_no_nl].
Qed.

Lemma orphan_fix_only_comments_out_witness :
  Forall2 commented_out (split_nl Samples.orphan_doc)
    (split_nl Samples.orphan_doc_fixed).
Proof.
  apply (orphan_fix_only_comments_out Samples.orphan_doc
           Samples.orphan_doc_fixed).
  vm_compute; reflexivity.
Defined.

(** X6.  A block that closes is commented as a whole and nothing after
    it is touched: when the depth stays positive over the lines [blk]
    under the marker and the next line [close] brings it to zero, the
    loop body comments every line of [blk] that is neither blank nor a
    comment, comments [close] unless it is a comment, and leaves the
    lines after [close] as they are. *)
Theorem orphan_fix_closed_block
    (pre blk : list str) (close : str) (tail : list str) :
  stays_open 1 blk ->
  new_depth (depth 1 blk) close = 0%Z ->
  foldl FixAllSocketOrphans.comment_at (pre ++ blk ++ close :: tail)
    (FixAllSocketOrphans.sc_properties_to_comment
       (FixAllSocketOrphans.scan (blk ++ close :: tail) (length pre) 1 []))
  = pre ++ map comment_if_code blk
    ++ (if commented close then close
        else FixAllSocketOrphans.comment_line close) :: tail.
Proof.
  intros Ho Hz. rewrite OrphanFacts.foldl_comment_at.
  rewrite OrphanFacts.rewrite_block_stays_open by (done || lia).
  do 2 f_equal.
  pose proof (OrphanFacts.depth_positive 1 blk ltac:(lia) Ho) as Hd.
  cbn [rewrite_block].
  assert (negb (0 <? depth 1 blk)%Z = false) as ->
    by (apply negb_false_iff; lia).
  cbv zeta. rewrite Hz. cbn [Z.eqb]. f_equal.
  unfold selected. cbn [Z.eqb].
  assert ((0 <? count close "}")%Z = true) as ->.
  { unfold new_depth in Hz. pose proof (count_nonneg close "{"). lia. }
  rewrite andb_true_r. by destruct (commented close).
Qed.

Lemma orphan_fix_closed_block_witness :
  foldl FixAllSocketOrphans.comment_at
    ([lit "  // io.to(room).emit('update', {"]
       ++ [lit "    id: 1,"; lit "    name: n"]
       ++ lit "  });" :: [lit "  res.json({ ok: true });"])
    (FixAllSocketOrphans.sc_properties_to_comment
       (FixAllSocketOrphans.scan
          ([lit "    id: 1,"; lit "    name: n"]
             ++ lit "  });" :: [lit "  res.json({ ok: true });"]) 1 1 []))
  = [lit "  // io.to(room).emit('update', {"]
    ++ map comment_if_code [lit "    id: 1,"; lit "    name: n"]
    ++ (if commented (lit "  });") then lit "  });"
        else FixAllSocketOrphans.comment_line (lit "  });"))
       :: [lit "  res.json({ ok: true });"].
Proof.
  apply (orphan_fix_closed_block [lit "  // io.to(room).emit('update', {"]
           [lit "    id: 1,"; lit "    name: n"] (lit "  });")
           [lit "  res.json({ ok: true });"]).
  - intros n Hn. destruct n as [|[|n]]; [vm_compute; reflexivity..|].
    simpl in Hn. lia.
  - vm_compute; reflexivity.
Defined.

(** ** The first comment fixer *)

Lemma closing_is_code (l : str) :
  eqb (strip l) (lit "});") = true ->
  commented l = false /\ nonempty (strip l) = true.
Proof. intros H%eqb_eq. unfold commented. by rewrite H. Qed.

Lemma not_stops_is_code (l : str) :
  FixSocketComments.stops (strip l) = false ->
  commented l = false /\ nonempty (strip l) = true.
Proof.
  unfold FixSocketComments.stops, commented. intros H.
  repeat (apply orb_false_iff in H as [H ?]).
  split; [done|]. by apply negb_false_iff.
Qed.

Lemma commented_stops (l : str) :
  commented l = true -> FixSocketComments.stops (strip l) = true.
Proof.
  unfold FixSocketComments.stops, commented. intros ->.
  by rewrite orb_true_r.
Qed.

Lemma comment_orphans_commented_out (rest : list str) (m : bool) :
  Forall2 commented_out rest (FixSocketComments.comment_orphans rest m).1.
Proof.
  revert m. induction rest as [|l rest IH]; intros m; [constructor|].
  cbn [FixSocketComments.comment_orphans].
  destruct (eqb (strip l) (lit "});")) eqn:Hc.
  { cbn. constructor; [|apply Forall2_commented_out_refl].
    right. destruct (closing_is_code l Hc). done. }
  destruct (FixSocketComments.stops (strip l)) eqn:Hs.
  { apply Forall2_commented_out_refl. }
  destruct (not_stops_is_code l Hs).
  destruct (FixSocketComments.is_property (strip l)).
  - specialize (IH true).
    destruct (FixSocketComments.comment_orphans rest true). cbn in *.
    constructor; [by right | done].
  - specialize (IH m).
    destruct (FixSocketComments.comment_orphans rest m). cbn in *.
    constructor; [by left | done].
Qed.

(** Where the scan finds nothing to comment it changes nothing. *)
Lemma calm_comment_orphans (rest : list str) (m : bool) :
  calm rest -> FixSocketComments.comment_orphans rest m = (rest, m).
Proof.
  revert m. induction rest as [|l rest IH]; intros m; [done|].
  cbn [calm FixSocketComments.comment_orphans]. intros [-> [->|[-> Hc]]]; [done|].
  destruct (FixSocketComments.stops (strip l)); [done|].
  by rewrite (IH m Hc).
Qed.

Lemma calm_commented_out (rest rest' : list str) :
  Forall2 commented_out rest rest' -> calm rest -> calm rest'.
Proof.
  induction 1 as [|l l' rest rest' Hl _ IH]; [done|].
  cbn [calm]. intros [H1 H2]. destruct Hl as [->|(_ & _ & ->)].
  - split; [done|]. destruct H2 as [?|[? ?]]; auto.
  - pose proof (OrphanFacts.commented_comment_line l) as Hc.
    unfold FixAllSocketOrphans.comment_line in Hc.
    apply commented_stops in Hc.
    split; [by apply CommentFacts.stops_not_closing | by left].
Qed.

Lemma calm_comment_line (l : str) (rest : list str) :
  calm (FixSocketComments.comment_line l :: rest).
Proof.
  pose proof (OrphanFacts.commented_comment_line l) as Hc.
  apply commented_stops in Hc. cbn [calm].
  split; [by apply CommentFacts.stops_not_closing | by left].
Qed.

(** After the scan there is nothing left for it to comment. *)
Lemma comment_orphans_calm (rest : list str) (m : bool) :
  calm (FixSocketComments.comment_orphans rest m).1.
Proof.
  revert m. induction rest as [|l rest IH]; intros m; [done|].
  cbn [FixSocketComments.comment_orphans].
  destruct (eqb (strip l) (lit "});")) eqn:Hc; [apply calm_comment_line|].
  destruct (FixSocketComments.stops (strip l)) eqn:Hs.
  { cbn [fst calm]. by auto. }
  destruct (FixSocketComments.is_property (strip l)) eqn:Hp.
  - destruct (FixSocketComments.comment_orphans rest true).
    apply calm_comment_line.
  - specialize (IH m).
    destruct (FixSocketComments.comment_orphans rest m). cbn in *. auto.
Qed.

Lemma calm_at_commented_out (a b : list str) (i : nat) :
  Forall2 commented_out a b -> b !! i = a !! i -> calm_at a i -> calm_at b i.
Proof.
  intros Hab Hi Hq line Hline Hm. rewrite Hi in Hline.
  eapply calm_commented_out; [by apply Forall2_drop | by eapply Hq].
Qed.

Lemma comments_fix_loop_invariant
    (fuel : nat) (lines : list str) (i : nat) (m : bool) :
  let out := (FixSocketComments.fix_loop fuel lines i m).1 in
  Forall2 commented_out lines out /\ take i out = take i lines /\
  ((forall i', i' < i -> calm_at lines i') -> length lines - i <= fuel ->
   forall i', calm_at out i').
Proof.
  revert lines i m. induction fuel as [|fuel IH]; intros lines i m;
    cbn [FixSocketComments.fix_loop].
  - cbn. split; [apply Forall2_commented_out_refl|]. split; [done|].
    intros Hq Hf i'. destruct (decide (i' < i)); [by apply Hq|].
    intros line Hline. apply lookup_lt_Some in Hline. lia.
  - destruct (lines !! i) as [line|] eqn:Hi.
    2:{ cbn. split; [apply Forall2_commented_out_refl|]. split; [done|].
        intros Hq Hf i'. destruct (decide (i' < i)); [by apply Hq|].
        intros l Hl. apply lookup_lt_Some in Hl.
        apply lookup_ge_None in Hi. lia. }
    pose proof (lookup_lt_Some _ _ _ Hi) as Hlt.
    fold (is_call_comment line). destruct (is_call_comment line) eqn:Hm.
    + pose proof (comment_orphans_commented_out (drop (S i) lines) m) as Hco.
      pose proof (comment_orphans_calm (drop (S i) lines) m) as Hcalm.
      destruct (FixSocketComments.comment_orphans (drop (S i) lines) m)
        as [rest m'].
      cbn [fst] in Hco, Hcalm.
      set (lines' := take (S i) lines ++ rest).
      assert (Forall2 commented_out lines lines') as Hs.
      { rewrite <- (take_drop (S i) lines) at 1. apply Forall2_app; [|done].
        apply Forall2_commented_out_refl. }
      assert (length lines' = length lines) as Hlen
        by (symmetry; by eapply Forall2_length).
      assert (take (S i) lines' = take (S i) lines) as Htk.
      { unfold lines'. rewrite take_app_le by (rewrite length_take; lia).
        rewrite take_take. f_equal. lia. }
      assert (forall n, n <= i -> lines' !! n = lines !! n) as Hsame.
      { intros n Hn. rewrite <- (lookup_take_lt lines' (S i) n) by lia.
        rewrite Htk. apply lookup_take_lt. lia. }
      specialize (IH lines' (S i) m'). cbv zeta in IH.
      destruct IH as (IH1 & IH2 & IH3).
      split; [eauto using Forall2_commented_out_trans|]. split.
      * apply OrphanFacts.take_S_eq. by rewrite IH2.
      * intros Hq Hf. apply IH3; [|lia].
        intros i' Hi'. destruct (decide (i' = i)) as [->|Hne].
        -- intros l Hl _. unfold lines'.
           by rewrite drop_app_length' by (rewrite length_take; lia).
        -- apply (calm_at_commented_out lines); [done| |apply Hq; lia].
           apply Hsame. lia.
    + specialize (IH lines (S i) m). cbv zeta in IH.
      destruct IH as (IH1 & IH2 & IH3). split; [done|]. split.
      * by apply OrphanFacts.take_S_eq.
      * intros Hq Hf. apply IH3; [|lia].
        intros i' Hi'. destruct (decide (i' = i)) as [->|Hne].
        -- intros l Hl Hml. congruence.
        -- apply Hq. lia.
Qed.

Lemma comments_fix_loop_calm
    (fuel : nat) (lines : list str) (i : nat) (m : bool) :
  (forall i', calm_at lines i') ->
  FixSocketComments.fix_loop fuel lines i m = (lines, m).
Proof.
  intros Hq. revert i m. induction fuel as [|fuel IH]; intros i m;
    cbn [FixSocketComments.fix_loop]; [done|].
  destruct (lines !! i) as [line|] eqn:Hi; [|done].
  fold (is_call_comment line). destruct (is_call_comment line) eqn:Hm; [|apply IH].
  rewrite (calm_comment_orphans _ m (Hq i line Hi Hm)).
  rewrite take_drop. apply IH.
Qed.

(** ** Reading and writing the lines of a file *)

Lemma readlines_line (body s : str) :
  ~ In nl body -> readlines (body ++ nl :: s) = (body ++ [nl]) :: readlines s.
Proof.
  induction body as [|c body IH]; intros Hb.
  - cbn [app readlines]. by rewrite Ascii.eqb_refl.
  - cbn [app readlines].
    assert (Ascii.eqb c nl = false) as ->
      by (apply Ascii.eqb_neq; intros ->; apply Hb; by left).
    rewrite IH by (intros ?; apply Hb; by right).
    destruct (body ++ nl :: s) eqn:E; [by destruct body|done].
Qed.

Lemma readlines_last (l : str) : l <> [] -> ~ In nl l -> readlines l = [l].
Proof.
  induction l as [|c l IH]; intros Hne Hb; [done|].
  cbn [readlines].
  assert (Ascii.eqb c nl = false) as ->
    by (apply Ascii.eqb_neq; intros ->; apply Hb; by left).
  destruct l as [|c' l]; [done|].
  rewrite IH; [done..|]. intros ?; apply Hb; by right.
Qed.

Lemma readlines_concat (ls : list str) :
  well_split ls -> readlines (writelines ls) = ls.
Proof.
  unfold writelines. induction ls as [|l ls IH]; [done|].
  cbn [well_split concat]. destruct ls as [|l' ls].
  - intros [(body & -> & Hb)|[Hne Hb]]; cbn [concat]; rewrite app_nil_r.
    + rewrite <- (app_nil_r (body ++ [nl])), <- app_assoc.
      cbn [app]. by rewrite readlines_line.
    + by apply readlines_last.
  - intros [(body & -> & Hb) Hw]. rewrite <- app_assoc. cbn [app].
    rewrite readlines_line by done. f_equal. by apply IH.
Qed.

Lemma ends_line_cons (c : ascii) (l : str) :
  c <> nl -> ends_line l -> ends_line (c :: l).
Proof.
  intros Hc (body & -> & Hb). exists (c :: body). split; [done|].
  intros [H|H]; [by subst|done].
Qed.

Lemma readlines_well_split (s : str) : well_split (readlines s).
Proof.
  induction s as [|c s IH]; [done|]. cbn [readlines].
  destruct (Ascii.eqb c nl) eqn:E.
  - apply Ascii.eqb_eq in E. subst.
    assert (ends_line [nl]) as Hn
      by (exists []; split; [done | by intros []]).
    cbn [well_split]. destruct (readlines s); [by left | done].
  - apply Ascii.eqb_neq in E.
    destruct (readlines s) as [|l ls] eqn:Hr.
    + cbn. right. split; [done|]. intros [H|[]]. by subst.
    + destruct s as [|c' s]; [done|]. cbn [well_split] in *.
      destruct ls as [|l' ls].
      * destruct IH as [H|[H1 H2]]; [left; by apply ends_line_cons|].
        right. split; [done|]. intros [H|H]; [by subst|done].
      * destruct IH as [H1 H2]. split; [by apply ends_line_cons | done].
Qed.

Lemma lstrip_blank (ws : str) :
  Forall (fun c => isspace c = true) ws -> lstrip ws = [].
Proof. induction 1 as [|c ws Hc _ IH]; [done|]. cbn. by rewrite Hc. Qed.

Lemma lstrip_split (s : str) :
  exists ws, s = ws ++ lstrip s /\ Forall (fun c => isspace c = true) ws.
Proof.
  induction s as [|c s (ws & Hs & Hw)]; [by exists []|].
  cbn [lstrip]. destruct (isspace c) eqn:E.
  - exists (c :: ws). split; [cbn; by rewrite <- Hs | by constructor].
  - by exists [].
Qed.

Lemma nonblank_lstrip (l : str) :
  nonempty (strip l) = true -> exists c t, lstrip l = c :: t /\ isspace c = false.
Proof.
  unfold strip. destruct (lstrip l) as [|c t] eqn:E; [done|]. intros _.
  exists c, t. split; [done|]. by eapply lstrip_head.
Qed.

(** Commenting a line out keeps its newline where it was. *)
Lemma ends_line_commented_out (l l' : str) :
  commented_out l l' -> ends_line l -> ends_line l'.
Proof.
  intros [->|(_ & Hne & ->)]; [done|]. intros (body & -> & Hb).
  destruct (nonblank_lstrip _ Hne) as (c & t & Hl & Hc).
  destruct (lstrip_split body) as (ws & Hws & Hsp).
  destruct (lstrip body) as [|c' t'] eqn:Hlb.
  - rewrite app_nil_r in Hws. subst ws.
    rewrite lstrip_blank in Hl; [done|].
    apply Forall_app. split; [done|]. by repeat constructor.
  - pose proof (lstrip_head _ _ _ Hlb) as Hc'.
    assert (lstrip (body ++ [nl]) = c' :: t' ++ [nl]) as Hl'.
    { rewrite Hws at 1. rewrite <- app_assoc. cbn [app].
      rewrite lstrip_app_nonspace by done. by rewrite lstrip_blank. }
    rewrite Hl'. exists (spaces (indent_of (body ++ [nl])) ++ lit "// " ++ c' :: t').
    split; [by rewrite <- !app_assoc|].
    rewrite !in_app_iff. intros [H|[H|H]].
    + apply repeat_spec in H. discriminate.
    + by apply (not_In_by_existsb nl (lit "// ")) in H.
    + apply Hb. rewrite Hws. apply in_or_app. by right.
Qed.

Lemma last_line_commented_out (l l' : str) :
  commented_out l l' -> l <> [] /\ ~ In nl l -> l' <> [] /\ ~ In nl l'.
Proof.
  intros [->|(_ & _ & ->)]; [done|]. intros [_ Hb]. split.
  - intros H. apply (f_equal (@length ascii)) in H.
    rewrite !length_app in H. cbn in H. lia.
  - intros Hin. by apply (OrphanFacts.In_comment_line l) in Hin.
Qed.

Lemma well_split_commented_out (a b : list str) :
  Forall2 commented_out a b -> well_split a -> well_split b.
Proof.
  induction 1 as [|l l' a b Hl Hab IH]; [done|].
  cbn [well_split]. destruct Hab as [|l2 l2' a b Hl2 Hab].
  - intros [H|H]; [left; by eapply ends_line_commented_out|].
    right. by eapply last_line_commented_out.
  - intros [H1 H2]. split; [by eapply ends_line_commented_out | by apply IH].
Qed.

(** X7.  Like the orphan fixer, the first comment fixer only comments
    lines out: the text it writes has the lines of the text it read,
    one for one and in order, each either as it was or, if it was
    neither blank nor a comment, commented out. *)
Theorem comment_fix_only_comments_out (content out : str) :
  FixSocketComments.fix_file content = Some out ->
  Forall2 commented_out (readlines content) (readlines out).
Proof.
  unfold FixSocketComments.fix_file. intros H.
  pose proof (comments_fix_loop_invariant (length (readlines content))
                (readlines content) 0 false) as (Hco & _ & _).
  destruct (FixSocketComments.fix_loop (length (readlines content))
              (readlines content) 0 false) as [lines' m].
  destruct m; [|done]. injection H as <-. cbn [fst] in Hco.
  rewrite readlines_concat; [done|].
  eapply well_split_commented_out; [done | apply readlines_well_split].
Qed.

Lemma comment_fix_only_comments_out_witness :
  Forall2 commented_out (readlines Samples.stopped_doc)
    (readlines Samples.stopped_doc_fixed).
Proof.
  apply (comment_fix_only_comments_out Samples.stopped_doc
           Samples.stopped_doc_fixed).
  vm_compute; reflexivity.
Defined.

(** X8.  Running the first comment fixer on the text it has written
    changes nothing: the loop gives back the same lines with [modified]
    false, whatever its number of steps, and the file is not written
    again. *)
Theorem comment_fix_rerun_is_noop (content out : str) :
  FixSocketComments.fix_file content = Some out ->
  (forall fuel,
     FixSocketComments.fix_loop fuel (readlines out) 0 false
     = (readlines out, false))
  /\ FixSocketComments.fix_file out = None.
Proof.
  unfold FixSocketComments.fix_file. intros H.
  pose proof (comments_fix_loop_invariant (length (readlines content))
                (readlines content) 0 false) as (Hco & _ & Hq).
  destruct (FixSocketComments.fix_loop (length (readlines content))
              (readlines content) 0 false) as [lines' m].
  destruct m; [|done]. injection H as <-. cbn [fst] in Hco, Hq.
  rewrite readlines_concat
    by (eapply well_split_commented_out; [done | apply readlines_well_split]).
  assert (forall i', calm_at lines' i') as Hcalm
    by (apply Hq; [intros i' Hi'; lia | lia]).
  split; [intros fuel|]; by rewrite comments_fix_loop_calm.
Qed.

Lemma comment_fix_rerun_is_noop_witness :
  (forall fuel,
     FixSocketComments.fix_loop fuel (readlines Samples.stopped_doc_fixed) 0
       false
     = (readlines Samples.stopped_doc_fixed, false))
  /\ FixSocketComments.fix_file Samples.stopped_doc_fixed = None.
Proof.
  apply (comment_fix_rerun_is_noop Samples.stopped_doc
           Samples.stopped_doc_fixed).
  vm_compute; reflexivity.
Defined.

(** X9.  When the inner loop of the first comment fixer comes to a
    closing line [});] before it comes to a line that stops it, the
    block is commented to its end: the property lines it passed are
    commented, the closing line is commented, the lines after it are
    kept as they are, and [modified] is set. *)
Theorem comment_fix_closed_block
    (pre : list str) (close : str) (post : list str) (modified : bool) :
  Forall (fun l => eqb (strip l) (lit "});") = false
                   /\ FixSocketComments.stops (strip l) = false) pre ->
  eqb (strip close) (lit "});") = true ->
  FixSocketComments.comment_orphans (pre ++ close :: post) modified
  = (map comment_if_property pre
       ++ FixSocketComments.comment_line close :: post, true).
Proof.
  intros Hpre Hclose. revert modified.
  induction Hpre as [|l pre [H1 H2] _ IH]; intros modified.
  - cbn [app map FixSocketComments.comment_orphans]. by rewrite Hclose.
  - cbn [app map FixSocketComments.comment_orphans]. rewrite H1, H2.
    unfold comment_if_property.
    destruct (FixSocketComments.is_property (strip l)); by rewrite IH.
Qed.

Lemma comment_fix_closed_block_witness :
  FixSocketComments.comment_orphans
    ([lit "    id: 1," ++ [nl]; lit "    name: n" ++ [nl]]
       ++ (lit "  });" ++ [nl]) :: [lit "  res.json(ok);" ++ [nl]]) false
  = (map comment_if_property
       [lit "    id: 1," ++ [nl]; lit "    name: n" ++ [nl]]
       ++ FixSocketComments.comment_line (lit "  });" ++ [nl])
          :: [lit "  res.json(ok);" ++ [nl]], true).
Proof.
  apply (comment_fix_closed_block
           [lit "    id: 1," ++ [nl]; lit "    name: n" ++ [nl]]
           (lit "  });" ++ [nl]) [lit "  res.json(ok);" ++ [nl]]).
  - repeat constructor.
  - vm_compute; reflexivity.
Defined.

(** ** The Ably migration *)

Lemma find_call_found (rest : list str) (i j : nat)
    (fc : MigrateToAbly.found_call) :
  j <= i + 50 ->
  MigrateToAbly.find_call rest i j = Some fc ->
  j <= MigrateToAbly.fc_j fc <= i + 50
  /\ rest !! (MigrateToAbly.fc_j fc - j) = Some (MigrateToAbly.fc_line fc)
  /\ commented (MigrateToAbly.fc_line fc) = true
  /\ MigrateToAbly.match_call (strip (MigrateToAbly.fc_line fc))
     = Some (MigrateToAbly.fc_channel fc, MigrateToAbly.fc_event fc).
Proof.
  revert j. induction rest as [|l rest IH]; intros j Hj; [done|].
  cbn [MigrateToAbly.find_call]. cbv zeta.
  destruct (startswith (strip l) (lit "//") && str_in (lit "io.to(") (strip l)
            && str_in (lit ".emit(") (strip l)) eqn:Hc.
  - destruct (MigrateToAbly.match_call (strip l)) as [[channel event]|] eqn:Hm.
    + intros [= <-]. cbn. rewrite Nat.sub_diag.
      apply andb_true_iff in Hc as [Hc _].
      apply andb_true_iff in Hc as [Hc _]. repeat split; (done || lia).
    + destruct (50 <? S j - i) eqn:Hw; [done|]. intros H.
      apply Nat.ltb_ge in Hw.
      destruct (IH (S j) ltac:(lia) H) as (Hb & Hl & Hrest).
      split; [lia|]. split; [|done].
      replace (MigrateToAbly.fc_j fc - j)
        with (S (MigrateToAbly.fc_j fc - S j)) by lia. done.
  - destruct (50 <? S j - i) eqn:Hw; [done|]. intros H.
    apply Nat.ltb_ge in Hw.
    destruct (IH (S j) ltac:(lia) H) as (Hb & Hl & Hrest).
    split; [lia|]. split; [|done].
    replace (MigrateToAbly.fc_j fc - j)
      with (S (MigrateToAbly.fc_j fc - S j)) by lia. done.
Qed.

(** X10.  The call line the Ably migration finds for a marker at line
    [i] is one of the next 50 lines, it is a comment, and the channel
    and event it goes on with are those its patterns match on that
    line. *)
Theorem ably_find_call_within_window
    (lines : list str) (i : nat) (fc : MigrateToAbly.found_call) :
  MigrateToAbly.find_call (drop (S i) lines) i (S i) = Some fc ->
  i < MigrateToAbly.fc_j fc <= i + 50
  /\ lines !! MigrateToAbly.fc_j fc = Some (MigrateToAbly.fc_line fc)
  /\ commented (MigrateToAbly.fc_line fc) = true
  /\ MigrateToAbly.match_call (strip (MigrateToAbly.fc_line fc))
     = Some (MigrateToAbly.fc_channel fc, MigrateToAbly.fc_event fc).
Proof.
  intros H. apply find_call_found in H as (Hb & Hl & Hrest); [|lia].
  split; [lia|]. split; [|done].
  rewrite lookup_drop in Hl. rewrite <- Hl. f_equal. lia.
Qed.

Lemma ably_find_call_within_window_witness :
  let fc := MigrateToAbly.Build_found_call 1
              (lit "// io.to(`room`).emit('update', {")
              (lit "room") (lit "update") in
  0 < MigrateToAbly.fc_j fc <= 0 + 50
  /\ split_nl Samples.truncated_todo_doc !! MigrateToAbly.fc_j fc
     = Some (MigrateToAbly.fc_line fc)
  /\ commented (MigrateToAbly.fc_line fc) = true
  /\ MigrateToAbly.match_call (strip (MigrateToAbly.fc_line fc))
     = Some (MigrateToAbly.fc_channel fc, MigrateToAbly.fc_event fc).
Proof.
  apply (ably_find_call_within_window (split_nl Samples.truncated_todo_doc) 0).
  vm_compute; reflexivity.
Defined.

Lemma rstrip_idem (s : str) : rstrip (rstrip s) = rstrip s.
Proof.
  unfold rstrip. rewrite rev_involutive. f_equal.
  generalize (rev s). intros t. induction t as [|x t IH]; [done|].
  cbn [lstrip]. destruct (isspace x) eqn:E; [done|]. cbn. by rewrite E.
Qed.

Lemma strip_idem (s : str) : strip (strip s) = strip s.
Proof.
  assert (lstrip (strip s) = strip s) as H.
  { destruct (strip s) as [|c t] eqn:E; [done|].
    cbn. by rewrite (strip_head _ _ _ E). }
  unfold strip at 1. rewrite H. unfold strip. apply rstrip_idem.
Qed.

Lemma scan_properties_fragment_of
    (all done_ todo : list str) (k : nat) (bc : Z) (props : list (str * str)) :
  all = done_ ++ todo -> Forall (fragment_of all) props ->
  Forall (fragment_of all)
    (MigrateToAbly.ps_properties
       (MigrateToAbly.scan_properties todo k bc props)).
Proof.
  revert done_ k bc props.
  induction todo as [|l todo IH]; intros done_ k bc props Hr Hp; [done|].
  rewrite AblyFacts.scan_properties_cons.
  destruct (negb (0 <? bc)%Z); [done|].
  assert (all = (done_ ++ [l]) ++ todo) as Hr' by (by rewrite <- app_assoc).
  destruct (negb (commented l)) eqn:Hc; [by eapply IH|].
  apply negb_false_iff in Hc. cbv zeta.
  assert (Forall (fragment_of all)
            (if kept (new_depth bc l) l
             then props ++ [(spaces (indent_of l), fragment l)] else props))
    as Hp'.
  { destruct (kept _ l) eqn:Hk; [|done]. apply Forall_app. split; [done|].
    constructor; [|constructor]. unfold kept in Hk.
    apply andb_true_iff in Hk as [Hk H4].
    apply andb_true_iff in Hk as [Hk H3].
    apply andb_true_iff in Hk as [H1 _].
    split; [exists l; split; [|done]|].
    - rewrite Hr. apply in_or_app. right. by left.
    - cbn [snd]. split; [done|]. split; [apply strip_idem|].
      split; intros He; rewrite He in *; done. }
  destruct (new_depth bc l =? 0)%Z; [done|]. by eapply IH.
Qed.

(** X11.  Every payload fragment the property scan collects is the text
    of a commented line of the block, without its [//] and trimmed; it
    is kept with the indentation of that line; and it is never empty,
    never a lone [}] and never [});]. *)
Theorem ably_fragments_are_trimmed_lines
    (rest : list str) (k : nat) (bc : Z) :
  Forall (fragment_of rest)
    (MigrateToAbly.ps_properties (MigrateToAbly.scan_properties rest k bc [])).
Proof.
  apply (scan_properties_fragment_of rest [] rest); [done | constructor].
Qed.

(** X12.  A block of commented lines that closes is replaced as a whole
    and nothing else is: when the depth stays positive over the
    commented lines [blk] under the call line and the commented line
    [close] brings it to zero, the document after the turn is the lines
    before the marker, the generated code (with the fragments of [blk]
    and [close]), and then the lines after [close], untouched. *)
Theorem ably_closed_block_splice
    (head blk : list str) (close : str) (tail : list str) (i : nat)
    (fc : MigrateToAbly.found_call) :
  i <= MigrateToAbly.fc_j fc ->
  length head = S (MigrateToAbly.fc_j fc) ->
  Forall (fun l => commented l = true) blk -> commented close = true ->
  stays_open 1 blk -> new_depth (depth 1 blk) close = 0%Z ->
  spliced (head ++ blk ++ close :: tail) i fc
  = take i head
    ++ MigrateToAbly.build_replacement
         (spaces (indent_of (MigrateToAbly.fc_line fc)))
         (MigrateToAbly.fc_channel fc) (MigrateToAbly.fc_event fc)
         (MigrateToAbly.ps_properties
            (MigrateToAbly.scan_properties (blk ++ [close])
               (length head) 1 []))
    ++ tail.
Proof.
  intros Hi Hh Hc Hcl Ho Hz. unfold spliced.
  rewrite <- Hh, drop_app_length.
  destruct (AblyFacts.scan_properties_stays_open blk (length head) 1 []
              ltac:(lia) Hc Ho) as [props' Hp].
  rewrite !Hp.
  pose proof (OrphanFacts.depth_positive 1 blk ltac:(lia) Ho) as Hd.
  rewrite !AblyFacts.scan_properties_cons, Hcl.
  assert (negb (0 <? depth 1 blk)%Z = false) as ->
    by (apply negb_false_iff; lia).
  cbn [negb]. cbv zeta. rewrite Hz. cbn [Z.eqb].
  cbn [MigrateToAbly.ps_k MigrateToAbly.ps_properties].
  rewrite take_app_le by lia. do 2 f_equal.
  rewrite (app_assoc head blk), (cons_middle close), app_assoc.
  apply drop_app_length'. rewrite !length_app. cbn. lia.
Qed.

Lemma ably_closed_block_splice_witness :
  let fc := MigrateToAbly.Build_found_call 1
              (lit "// io.to(`room`).emit('update', {")
              (lit "room") (lit "update") in
  spliced
    ([lit "// TODO: Replace with Ably";
      lit "// io.to(`room`).emit('update', {"]
       ++ [lit "//   id: 1,"] ++ lit "// });" :: [lit "done();"]) 0 fc
  = take 0 [lit "// TODO: Replace with Ably";
            lit "// io.to(`room`).emit('update', {"]
    ++ MigrateToAbly.build_replacement
         (spaces (indent_of (MigrateToAbly.fc_line fc)))
         (MigrateToAbly.fc_channel fc) (MigrateToAbly.fc_event fc)
         (MigrateToAbly.ps_properties
            (MigrateToAbly.scan_properties
               ([lit "//   id: 1,"] ++ [lit "// });"])
               (length [lit "// TODO: Replace with Ably";
                        lit "// io.to(`room`).emit('update', {"]) 1 []))
    ++ [lit "done();"].
Proof.
  apply (ably_closed_block_splice
           [lit "// TODO: Replace with Ably";
            lit "// io.to(`room`).emit('update', {"]
           [lit "//   id: 1,"] (lit "// });") [lit "done();"] 0
           (MigrateToAbly.Build_found_call 1
              (lit "// io.to(`room`).emit('update', {")
              (lit "room") (lit "update"))).
  - simpl. lia.
  - reflexivity.
  - repeat constructor.
  - vm_compute; reflexivity.
  - intros n Hn. destruct n as [|n]; [vm_compute; reflexivity|].
    simpl in Hn. lia.
  - vm_compute; reflexivity.
Defined.

Lemma ably_migrate_loop_unresolved
    (fuel : nat) (lines : list str) (i : nat) (m : bool) :
  (forall i' line, lines !! i' = Some line ->
     str_in (lit "// TODO: Replace with Ably") line = true ->
     MigrateToAbly.find_call (drop (S i') lines) i' (S i') = None) ->
  MigrateToAbly.migrate_loop fuel lines i m = (lines, m).
Proof.
  intros H. revert i m. induction fuel as [|fuel IH]; intros i m;
    cbn [MigrateToAbly.migrate_loop]; [done|].
  destruct (lines !! i) as [line|] eqn:Hi; [|done].
  destruct (str_in _ line) eqn:Hm; [|apply IH].
  rewrite (H i line Hi Hm). apply IH.
Qed.

(** X13.  A marker for which no call line can be parsed is left alone:
    when, for every line that holds the marker, no line in the window
    after it matches one of the two patterns, the Ably migration does
    not change a line and does not write the file.  So it is for a file
    without markers. *)
Theorem ably_unresolved_markers_no_write (content : str) :
  (forall i line, split_nl content !! i = Some line ->
     str_in (lit "// TODO: Replace with Ably") line = true ->
     MigrateToAbly.find_call (drop (S i) (split_nl content)) i (S i) = None) ->
  (forall fuel,
     MigrateToAbly.migrate_loop fuel (split_nl content) 0 false
     = (split_nl content, false))
  /\ MigrateToAbly.migrate_socket_to_ably content = None.
Proof.
  intros H. unfold MigrateToAbly.migrate_socket_to_ably.
  split; [intros fuel|]; by rewrite ably_migrate_loop_unresolved.
Qed.

Lemma ably_unresolved_markers_no_write_witness :
  (forall fuel,
     MigrateToAbly.migrate_loop fuel
       (split_nl (join_nl (lit "// TODO: Replace with Ably"
                             :: Samples.field_block))) 0 false
     = (split_nl (join_nl (lit "// TODO: Replace with Ably"
                             :: Samples.field_block)), false))
  /\ MigrateToAbly.migrate_socket_to_ably
       (join_nl (lit "// TODO: Replace with Ably" :: Samples.field_block))
     = None.
Proof.
  apply (ably_unresolved_markers_no_write
           (join_nl (lit "// TODO: Replace with Ably" :: Samples.field_block))).
  intros i line Hl _.
  destruct i as [|[|[|[|i]]]]; vm_compute; reflexivity.
Defined.

(** ** The TODO migration *)

(** X14.  The block the TODO migration collects under a marker is a run
    of consecutive lines, each of them blank or a comment: the lines it
    takes out with the marker line hold no code. *)
Theorem todos_block_is_comments
    (rest : list str) (j : nat) (block_lines : list str) :
  exists n,
    n <= length rest
    /\ MigrateTodos.collect_block rest j block_lines
       = (block_lines ++ take n rest, j + n)
    /\ Forall (fun l => blank_or_comment l = true) (take n rest).
Proof.
  revert j block_lines.
  induction rest as [|l rest IH]; intros j block_lines.
  - exists 0. cbn. by rewrite app_nil_r, Nat.add_0_r.
  - cbn [MigrateTodos.collect_block]. fold (commented l).
    fold (blank_or_comment l). destruct (blank_or_comment l) eqn:Hb.
    + cbv zeta. destruct (str_in (lit "});") l).
      * exists 1. cbn. split; [lia|]. split; [by rewrite Nat.add_1_r|].
        by constructor.
      * destruct (IH (S j) (block_lines ++ [l])) as (n & Hn & -> & Hf).
        exists (S n). cbn. split; [lia|].
        split; [by rewrite <- app_assoc, Nat.add_succ_r | by constructor].
    + exists 0. cbn. split; [lia|]. by rewrite app_nil_r, Nat.add_0_r.
Qed.

Lemma todos_migrate_loop_keeps
    (fuel : nat) (lines : list str) (i : nat) (acc : list str) (n : nat)
    (l : str) :
  length lines - i <= fuel ->
  In l acc
  \/ (In l (drop i lines) /\ blank_or_comment l = false /\ has_todo l = false) ->
  In l (MigrateTodos.migrate_loop fuel lines i acc n).1.
Proof.
  revert i acc n. induction fuel as [|fuel IH]; intros i acc n Hf Hl.
  - cbn. destruct Hl as [H|[H _]]; [done|].
    rewrite drop_ge in H by lia. done.
  - cbn [MigrateTodos.migrate_loop].
    destruct (lines !! i) as [line|] eqn:Hi.
    2:{ cbn. destruct Hl as [H|[H _]]; [done|].
        apply lookup_ge_None in Hi. rewrite drop_ge in H by lia. done. }
    pose proof (lookup_lt_Some _ _ _ Hi) as Hlt. cbv zeta.
    assert (In l (MigrateTodos.migrate_loop fuel lines (S i) (acc ++ [line])
                    n).1) as Hkeep.
    { apply IH; [lia|]. rewrite (drop_S _ _ _ Hi) in Hl.
      destruct Hl as [H|[[<-|H] H']].
      - left. apply in_or_app. by left.
      - left. apply in_or_app. right. by left.
      - by right. }
    fold (has_todo line). destruct (has_todo line) eqn:Ht; [|done].
    destruct (todos_block_is_comments (drop (S i) lines) (S i) [line])
      as (k & Hk & -> & Hblk).
    destruct (MigrateTodos.extract_channel_and_event _)
      as [[channel event]|]; [|done].
    destruct (andb _ _); [|done].
    apply IH; [lia|].
    destruct Hl as [H|(H & Hc & Hn)]; [left; apply in_or_app; by left|].
    right. split; [|done].
    rewrite (drop_S _ _ _ Hi) in H. destruct H as [<-|H]; [congruence|].
    rewrite <- (take_drop k (drop (S i) lines)) in H.
    apply in_app_or in H as [H|H].
    + rewrite Forall_forall in Hblk.
      apply list_elem_of_In, Hblk in H. congruence.
    + by rewrite drop_drop in H.
Qed.

(** X15.  The TODO migration never takes a line of code out: every line
    of the file that is neither blank nor a comment and does not hold
    the marker is among the lines it writes. *)
Theorem todos_keeps_code_lines (lines : list str) (l : str) :
  In l lines -> blank_or_comment l = false -> has_todo l = false ->
  In l (MigrateTodos.migrate_loop (length lines) lines 0 [] 0).1.
Proof.
  intros Hin Hc Ht. apply todos_migrate_loop_keeps; [lia|]. by right.
Qed.

Lemma todos_keeps_code_lines_witness :
  In (lit "  audit(id);" ++ [nl])
    (MigrateTodos.migrate_loop
       (length (readlines (Samples.template_doc ++ lit "  audit(id);" ++ [nl])))
       (readlines (Samples.template_doc ++ lit "  audit(id);" ++ [nl]))
       0 [] 0).1.
Proof.
  apply (todos_keeps_code_lines
           (readlines (Samples.template_doc ++ lit "  audit(id);" ++ [nl]))
           (lit "  audit(id);" ++ [nl])).
  - vm_compute. tauto.
  - vm_compute; reflexivity.
  - vm_compute; reflexivity.
Defined.

Lemma todos_migrate_loop_no_marker
    (fuel : nat) (lines : list str) (i : nat) (acc : list str) (n : nat) :
  Forall (fun l => has_todo l = false) lines -> length lines - i <= fuel ->
  MigrateTodos.migrate_loop fuel lines i acc n = (acc ++ drop i lines, n).
Proof.
  intros Hno. revert i acc. induction fuel as [|fuel IH]; intros i acc Hf.
  - cbn. rewrite drop_ge by lia. by rewrite app_nil_r.
  - cbn [MigrateTodos.migrate_loop].
    destruct (lines !! i) as [line|] eqn:Hi.
    2:{ apply lookup_ge_None in Hi. rewrite drop_ge by lia.
        by rewrite app_nil_r. }
    pose proof (lookup_lt_Some _ _ _ Hi) as Hlt. cbv zeta.
    fold (has_todo line).
    rewrite Forall_forall in Hno.
    rewrite (Hno line) by (eapply list_elem_of_lookup_2; done).
    rewrite IH by lia. rewrite (drop_S _ _ _ Hi), <- app_assoc. done.
Qed.

(** X16.  A file in which no line holds the marker goes through the TODO
    migration unchanged: the loop gives back its lines as they are, no
    replacement is counted and the file is not written. *)
Theorem todos_no_marker_no_write (content : str) :
  Forall (fun l => has_todo l = false) (readlines content) ->
  MigrateTodos.migrate_loop (length (readlines content)) (readlines content)
    0 [] 0 = (readlines content, 0)
  /\ MigrateTodos.migrate_file content = (None, 0).
Proof.
  intros H. unfold MigrateTodos.migrate_file.
  rewrite todos_migrate_loop_no_marker by (done || lia). done.
Qed.

Lemma todos_no_marker_no_write_witness :
  MigrateTodos.migrate_loop (length (readlines Samples.stopped_doc))
    (readlines Samples.stopped_doc) 0 [] 0
  = (readlines Samples.stopped_doc, 0)
  /\ MigrateTodos.migrate_file Samples.stopped_doc = (None, 0).
Proof.
  apply (todos_no_marker_no_write Samples.stopped_doc).
  vm_compute. repeat constructor.
Defined.

(** ** The driver of the Ably migration *)

Lemma str_eqb_neq (a b : str) : a <> b -> eqb a b = false.
Proof.
  intros H. destruct (eqb a b) eqn:E; [|done]. by apply eqb_eq in E.
Qed.

Lemma str_eqb_refl (a : str) : eqb a a = true.
Proof. by apply eqb_eq. Qed.

Lemma not_In_by_existsb_str (p : str) (l : list str) :
  existsb (eqb p) l = false -> ~ In p l.
Proof.
  intros H Hin. assert (existsb (eqb p) l = true) as H'; [|congruence].
  apply existsb_exists. exists p. split; [done | apply str_eqb_refl].
Qed.

Lemma run_add_other (fs : MigrateToAblyMain.files) (filepath p : str) :
  p <> filepath -> MigrateToAblyMain.run_add_ably_import fs filepath p = fs p.
Proof.
  intros H. unfold MigrateToAblyMain.run_add_ably_import.
  destruct (fs filepath) as [c|]; [|done].
  destruct (MigrateToAbly.add_ably_import filepath c); [|done].
  unfold MigrateToAblyMain.write. by rewrite str_eqb_neq.
Qed.

Lemma run_migrate_other (fs : MigrateToAblyMain.files) (filepath p : str) :
  p <> filepath ->
  (MigrateToAblyMain.run_migrate_socket_to_ably fs filepath).1 p = fs p.
Proof.
  intros H. unfold MigrateToAblyMain.run_migrate_socket_to_ably.
  destruct (fs filepath) as [c|]; [|done].
  destruct (MigrateToAbly.migrate_socket_to_ably c); [|done].
  cbn. unfold MigrateToAblyMain.write. by rewrite str_eqb_neq.
Qed.

(** X17.  The driver only touches the files of its list that exist: a
    path that is not in the list keeps its text, and a path with no
    file still has none (no file is created). *)
Theorem main_touches_only_listed_files
    (todo : list str) (fs : MigrateToAblyMain.files)
    (migrated_files : list str) (p : str) :
  ~ In p todo \/ fs p = None ->
  (MigrateToAblyMain.main_loop todo fs migrated_files).1 p = fs p.
Proof.
  revert fs migrated_files.
  induction todo as [|filepath todo IH]; intros fs migrated_files H; [done|].
  cbn [MigrateToAblyMain.main_loop].
  destruct (fs filepath) as [c|] eqn:Hf.
  2:{ apply IH. destruct H as [H|H]; [left; intros ?; apply H; by right|].
      by right. }
  assert (p <> filepath) as Hne.
  { destruct H as [H|H]; [intros ->; apply H; by left | congruence]. }
  cbv zeta.
  pose proof (run_migrate_other
                (MigrateToAblyMain.run_add_ably_import fs filepath)
                filepath p Hne) as Hm.
  destruct (MigrateToAblyMain.run_migrate_socket_to_ably _ filepath)
    as [fs2 migrated].
  cbn [fst] in Hm. rewrite run_add_other in Hm by done.
  rewrite IH; [done|].
  destruct H as [H|H]; [left; intros ?; apply H; by right|].
  right. congruence.
Qed.

Lemma main_touches_only_listed_files_witness :
  (MigrateToAblyMain.main_loop MigrateToAblyMain.FILES_TO_MIGRATE
     (fun p => if eqb p (lit "server.js") then Some Samples.two_blocks_doc
               else None) []).1 (lit "server.js")
  = (fun p => if eqb p (lit "server.js") then Some Samples.two_blocks_doc
              else None) (lit "server.js").
Proof.
  apply (main_touches_only_listed_files MigrateToAblyMain.FILES_TO_MIGRATE
           (fun p => if eqb p (lit "server.js") then Some Samples.two_blocks_doc
                     else None) [] (lit "server.js")).
  left. apply not_In_by_existsb_str. vm_compute; reflexivity.
Defined.

Lemma main_loop_reported
    (todo : list str) (fs : MigrateToAblyMain.files) (migrated_files : list str)
    (q : str) :
  In q (MigrateToAblyMain.main_loop todo fs migrated_files).2 ->
  In q migrated_files \/ In q todo.
Proof.
  revert fs migrated_files.
  induction todo as [|filepath todo IH]; intros fs migrated_files; [by left|].
  cbn [MigrateToAblyMain.main_loop].
  destruct (fs filepath) as [c|].
  2:{ intros H. apply IH in H as [H|H]; [by left | right; by right]. }
  cbv zeta.
  destruct (MigrateToAblyMain.run_migrate_socket_to_ably _ filepath)
    as [fs2 migrated].
  intros H. apply IH in H as [H|H]; [|right; by right].
  destruct migrated; [|by left].
  apply in_app_or in H as [H|[<-|[]]]; [by left | right; by left].
Qed.

Lemma import_line_no_marker (filepath : str) :
  str_in (lit "// TODO: Replace with Ably") (MigrateToAbly.import_line filepath)
  = false.
Proof. unfold MigrateToAbly.import_line. by destruct (startswith filepath _). Qed.

(** X18.  A listed file that does not name the adapter and has no marker
    is rewritten all the same: the driver puts the import into it, and
    since nothing is migrated in it the file is not among the files
    reported as migrated. *)
Theorem main_imports_without_migrating
    (before : list str) (p : str) (after : list str)
    (fs : MigrateToAblyMain.files) (migrated_files : list str) (c : str) :
  ~ In p before -> ~ In p after -> ~ In p migrated_files ->
  fs p = Some c -> references_adapter c = false ->
  Forall (fun l => str_in (lit "// TODO: Replace with Ably") l = false)
    (split_nl c) ->
  let r := MigrateToAblyMain.main_loop (before ++ p :: after) fs migrated_files
  in
  exists c', MigrateToAbly.add_ably_import p c = Some c'
             /\ r.1 p = Some c' /\ c' <> c /\ ~ In p r.2.
Proof.
  intros Hb Ha Hm Hf Hr Hno. cbv zeta.
  destruct (MigrateToAbly.add_ably_import p c) as [c'|] eqn:Hadd.
  2:{ unfold MigrateToAbly.add_ably_import in Hadd.
      fold (references_adapter c) in Hadd. by rewrite Hr in Hadd. }
  exists c'. split; [done|].
  assert (c' <> c) as Hne.
  { intros ->. apply add_ably_import_never_twice in Hadd as Hadd'. congruence. }
  assert (MigrateToAbly.migrate_socket_to_ably c' = None) as Hmig.
  { apply ably_unresolved_markers_no_write. intros i line Hl Hmk.
    destruct (add_ably_import_inserts_one_line _ _ _ Hadd) as (n & _ & Hs).
    rewrite Hs in Hl. apply list_elem_of_lookup_2, list_elem_of_In in Hl.
    assert (Forall (fun l => str_in (lit "// TODO: Replace with Ably") l = false)
              (take n (split_nl c)
               ++ MigrateToAbly.import_line p :: drop n (split_nl c))) as Hall.
    { apply Forall_app. split; [by apply Forall_take|].
      constructor; [apply import_line_no_marker | by apply Forall_drop]. }
    rewrite Forall_forall in Hall. apply list_elem_of_In, Hall in Hl.
    congruence. }
  revert fs migrated_files Hm Hf.
  induction before as [|q before IH]; intros fs migrated_files Hm Hf.
  - cbn [app MigrateToAblyMain.main_loop]. rewrite Hf. cbv zeta.
    unfold MigrateToAblyMain.run_add_ably_import. rewrite Hf, Hadd.
    unfold MigrateToAblyMain.run_migrate_socket_to_ably.
    assert (MigrateToAblyMain.write fs p c' p = Some c') as Hw
      by (unfold MigrateToAblyMain.write; by rewrite str_eqb_refl).
    rewrite Hw, Hmig.
    split; [|split; [done|]].
    + by rewrite main_touches_only_listed_files by (by left).
    + intros H. apply main_loop_reported in H as [H|H]; done.
  - assert (p <> q) as Hpq by (intros ->; apply Hb; by left).
    assert (~ In p before) as Hb' by (intros ?; apply Hb; by right).
    cbn [app MigrateToAblyMain.main_loop].
    destruct (fs q) as [cq|] eqn:Hq; [|by apply IH].
    cbv zeta.
    pose proof (run_migrate_other
                  (MigrateToAblyMain.run_add_ably_import fs q) q p Hpq) as Ho.
    destruct (MigrateToAblyMain.run_migrate_socket_to_ably _ q)
      as [fs2 migrated].
    cbn [fst] in Ho. rewrite run_add_other in Ho by done.
    apply IH; [done| |congruence].
    destruct migrated; [|done].
    intros H. apply in_app_or in H as [H|[H|[]]]; [done|]. by subst.
Qed.

Lemma main_imports_without_migrating_witness :
  let fs : MigrateToAblyMain.files :=
    fun p => if eqb p (lit "routes/goals.js") then Some Samples.requires_doc
             else None in
  let r := MigrateToAblyMain.main_loop
             (take 10 MigrateToAblyMain.FILES_TO_MIGRATE
                ++ lit "routes/goals.js"
                :: drop 11 MigrateToAblyMain.FILES_TO_MIGRATE) fs [] in
  exists c',
    MigrateToAbly.add_ably_import (lit "routes/goals.js") Samples.requires_doc
    = Some c'
    /\ r.1 (lit "routes/goals.js") = Some c'
    /\ c' <> Samples.requires_doc /\ ~ In (lit "routes/goals.js") r.2.
Proof.
  cbv zeta.
  apply (main_imports_without_migrating
           (take 10 MigrateToAblyMain.FILES_TO_MIGRATE) (lit "routes/goals.js")
           (drop 11 MigrateToAblyMain.FILES_TO_MIGRATE)
           (fun p => if eqb p (lit "routes/goals.js")
                     then Some Samples.requires_doc else None)
           [] Samples.requires_doc).
  - apply not_In_by_existsb_str. vm_compute; reflexivity.
  - apply not_In_by_existsb_str. vm_compute; reflexivity.
  - simpl. tauto.
  - vm_compute; reflexivity.
  - vm_compute; reflexivity.
  - vm_compute. repeat constructor.
Defined.
